(** * Policy-based Singleton (main.cpp): a shallow embedding

    The program is one class template, [Singleton<T, CreationPolicy,
    ThreadingModel>], with a static pointer [ptr_] per instantiation, a
    creation policy ([DefaultCreation]: [new T()] / [delete p]) and a
    threading policy ([SingleThreaded]: an empty guard; [MultiThreaded]: a
    [std::lock_guard] over the function-local static [mtx]).

    The embedding is sequential.  The process is a [World]: the static
    pointers, the heap of objects obtained from [new], the state of [mtx],
    the stack of actions the runtime runs at normal exit ([std::atexit]
    handlers and destructors of function-local statics share one LIFO
    order), and a ghost [trace] that logs every policy call.  Functions of
    the source are computations in a small state-and-exception monad. *)

From stdpp Require Import base decidable numbers strings list functions gmap.

(** ** Data *)

(** [T*]: an address, with [nullptr] the address 0. *)
Definition addr : Type := N.
Definition nullptr : addr := 0%N.

Inductive ThreadingModel : Type := SingleThreaded | MultiThreaded.
Inductive CreationPolicy : Type := DefaultCreation.

(** One instantiation [Singleton<T, CP, TM>]: it owns one static [ptr_]. *)
Record Slot : Type := MkSlot {
  slot_T : string;
  slot_CP : CreationPolicy;
  slot_TM : ThreadingModel
}.

#[global] Instance ThreadingModel_eq_dec : EqDecision ThreadingModel.
Proof. solve_decision. Defined.
#[global] Instance CreationPolicy_eq_dec : EqDecision CreationPolicy.
Proof. solve_decision. Defined.
#[global] Instance Slot_eq_dec : EqDecision Slot.
Proof. solve_decision. Defined.

(** What [GetMutexIfAny] hands to the guard: the static [mtx] of
    [MultiThreaded::GetMutex], or the lvalue obtained from the null
    pointer. *)
Inductive MutexRef : Type := mtx | null_ref.

(** [mtx] is a function-local static: not constructed until the first call
    of [GetMutex], destructed by the runtime at exit. *)
Inductive MutexState : Type := NotConstructed | Unlocked | Locked | Destructed.

(** What the runtime runs at normal exit. *)
Inductive ExitAction : Type :=
| AtExit_Destroy (k : Slot)   (* std::atexit(&Destroy) of instantiation k *)
| Dtor_mtx.                   (* destructor of the static mtx *)

#[global] Instance MutexState_eq_dec : EqDecision MutexState.
Proof. solve_decision. Defined.
#[global] Instance ExitAction_eq_dec : EqDecision ExitAction.
Proof. solve_decision. Defined.

Inductive UB : Type :=
| NullDeref                   (* an lvalue formed from a null pointer *)
| BadDelete (p : addr)        (* delete of an address that is not live *)
| DeadMutex.                  (* lock or unlock of a mutex that is not alive *)

Inductive Event : Type :=
| EvInit_mtx                              (* constructor of mtx *)
| EvDtor_mtx                              (* destructor of mtx *)
| EvLock
| EvUnlock
| EvCreate (k : Slot) (r : option addr)   (* CreationPolicy<T>::Create(): Some p, or None when it threw *)
| EvDestroy (k : Slot) (p : addr)         (* CreationPolicy<T>::Destroy(p) *)
| EvUB (u : UB).

#[global] Instance UB_eq_dec : EqDecision UB.
Proof. solve_decision. Defined.
#[global] Instance Event_eq_dec : EqDecision Event.
Proof. solve_decision. Defined.

Record World : Type := MkWorld {
  ptr_ : Slot → addr;             (* static T* ptr_, one per instantiation *)
  live : gset addr;               (* objects returned by new and not yet deleted *)
  mtx_state : MutexState;
  exit_stack : list ExitAction;   (* most recently registered first *)
  trace : list Event              (* ghost: newest event first *)
}.

(** Static initialisation: every [ptr_] is [nullptr], nothing else exists. *)
Definition initial_world : World :=
  {| ptr_ := λ _, nullptr; live := ∅; mtx_state := NotConstructed;
     exit_stack := []; trace := [] |}.

(** ** The monad: state, plus an exception or a thread that never returns *)

Inductive Result (A : Type) : Type :=
| Returned (a : A)
| Threw            (* an exception leaves the function *)
| Blocked.         (* the thread waits for a mutex forever *)
Arguments Returned {A} a.
Arguments Threw {A}.
Arguments Blocked {A}.

Definition M (A : Type) : Type := World → Result A * World.

Definition throw {A} : M A := λ w, (Threw, w).
Definition block {A} : M A := λ w, (Blocked, w).

#[global] Instance M_ret : MRet M := λ A a w, (Returned a, w).

#[global] Instance M_bind : MBind M := λ A B f m w,
  match m w with
  | (Returned a, w') => f a w'
  | (Threw, w') => (Threw, w')
  | (Blocked, w') => (Blocked, w')
  end.

Definition ret {A} (a : A) : M A := mret a.

(** A scoped object: [dtor] runs when the scope is left, by return or by
    exception.  A thread that is blocked inside never leaves. *)
Definition scope {A} (dtor : M unit) (body : M A) : M A := λ w,
  match body w with
  | (Blocked, w') => (Blocked, w')
  | (r, w') => (r, snd (dtor w'))
  end.

Definition log (e : Event) : M unit := λ w,
  (Returned (),
   {| ptr_ := ptr_ w; live := live w; mtx_state := mtx_state w;
      exit_stack := exit_stack w; trace := e :: trace w |}).

Definition read_ptr (k : Slot) : M addr := λ w, (Returned (ptr_ w k), w).

Definition write_ptr (k : Slot) (p : addr) : M unit := λ w,
  (Returned (),
   {| ptr_ := <[k := p]> (ptr_ w); live := live w; mtx_state := mtx_state w;
      exit_stack := exit_stack w; trace := trace w |}).

Definition set_live (h : gset addr) : M unit := λ w,
  (Returned (),
   {| ptr_ := ptr_ w; live := h; mtx_state := mtx_state w;
      exit_stack := exit_stack w; trace := trace w |}).

Definition set_mtx (s : MutexState) : M unit := λ w,
  (Returned (),
   {| ptr_ := ptr_ w; live := live w; mtx_state := s;
      exit_stack := exit_stack w; trace := trace w |}).

Definition set_exit_stack (st : list ExitAction) : M unit := λ w,
  (Returned (),
   {| ptr_ := ptr_ w; live := live w; mtx_state := mtx_state w;
      exit_stack := st; trace := trace w |}).

Definition get_live : M (gset addr) := λ w, (Returned (live w), w).
Definition get_mtx : M MutexState := λ w, (Returned (mtx_state w), w).
Definition get_exit_stack : M (list ExitAction) := λ w, (Returned (exit_stack w), w).

(** ** The runtime: new, delete, std::mutex, std::atexit *)

(** What the environment decides when [new T()] runs: the allocation and
    the constructor succeed, or one of them throws. *)
Inductive NewOutcome : Type := NewOk | NewThrows.

#[global] Instance NewOutcome_eq_dec : EqDecision NewOutcome.
Proof. solve_decision. Defined.

(** [new] never returns null and never returns a live address. *)
Definition fresh_addr (h : gset addr) : addr := fresh ({[nullptr]} ∪ h).

Definition new_T (o : NewOutcome) : M addr :=
  match o with
  | NewThrows => throw
  | NewOk =>
      h ← get_live;
      set_live ({[fresh_addr h]} ∪ h);;
      ret (fresh_addr h)
  end.

(** [delete p]: nothing for the null pointer. *)
Definition delete_T (p : addr) : M unit :=
  if decide (p = nullptr) then ret ()
  else
    h ← get_live;
    if decide (p ∈ h) then set_live (h ∖ {[p]})
    else log (EvUB (BadDelete p)).

(** [std::lock_guard<std::mutex>] constructor and destructor. *)
Definition mutex_lock (m : MutexRef) : M unit :=
  match m with
  | null_ref => log (EvUB NullDeref)
  | mtx =>
      s ← get_mtx;
      match s with
      | Unlocked => set_mtx Locked;; log EvLock
      | Locked => block
      | NotConstructed | Destructed => log (EvUB DeadMutex)
      end
  end.

Definition mutex_unlock (m : MutexRef) : M unit :=
  match m with
  | null_ref => log (EvUB NullDeref)
  | mtx =>
      s ← get_mtx;
      match s with
      | Locked => set_mtx Unlocked;; log EvUnlock
      | _ => log (EvUB DeadMutex)
      end
  end.

(** [std::atexit(f)]: the registration is taken to succeed (the source
    discards the return value). *)
Definition atexit (a : ExitAction) : M unit :=
  st ← get_exit_stack;
  set_exit_stack (a :: st).

(** ** main.cpp *)

Module DefaultCreation.
(** [static T* Create() { return new T(); }] *)
Definition Create (k : Slot) (o : NewOutcome) : M addr := λ w,
  match new_T o w with
  | (Returned p, w') => (Returned p, snd (log (EvCreate k (Some p)) w'))
  | (r, w') => (r, snd (log (EvCreate k None) w'))
  end.

(** [static void Destroy(T* p) { delete p; }] *)
Definition Destroy (k : Slot) (p : addr) : M unit :=
  log (EvDestroy k p);;
  delete_T p.
End DefaultCreation.

Module SingleThreaded.
(** [struct Lock { Lock(...) {} };] the argument is ignored. *)
Definition Lock (m : MutexRef) : M unit := ret ().
Definition Lock_dtor (m : MutexRef) : M unit := ret ().
End SingleThreaded.

Module MultiThreaded.
(** [Lock(std::mutex& m) : guard(m) {}] *)
Definition Lock (m : MutexRef) : M unit := mutex_lock m.
Definition Lock_dtor (m : MutexRef) : M unit := mutex_unlock m.

(** [static std::mutex& GetMutex() { static std::mutex mtx; return mtx; }]
    The first call constructs [mtx] and the runtime schedules its
    destructor. *)
Definition GetMutex : M MutexRef :=
  s ← get_mtx;
  match s with
  | NotConstructed =>
      set_mtx Unlocked;;
      log EvInit_mtx;;
      atexit Dtor_mtx;;
      ret mtx
  | _ => ret mtx
  end.
End MultiThreaded.

Definition CreationPolicy_Create (k : Slot) : NewOutcome → M addr :=
  match slot_CP k with DefaultCreation => DefaultCreation.Create k end.

Definition CreationPolicy_Destroy (k : Slot) : addr → M unit :=
  match slot_CP k with DefaultCreation => DefaultCreation.Destroy k end.

Definition ThreadingModel_Lock (tm : ThreadingModel) : MutexRef → M unit :=
  match tm with
  | SingleThreaded => SingleThreaded.Lock
  | MultiThreaded => MultiThreaded.Lock
  end.

Definition ThreadingModel_Lock_dtor (tm : ThreadingModel) : MutexRef → M unit :=
  match tm with
  | SingleThreaded => SingleThreaded.Lock_dtor
  | MultiThreaded => MultiThreaded.Lock_dtor
  end.

Module Singleton.
(** [if constexpr (is_same_v<ThreadingModel, MultiThreaded>) return
    ThreadingModel::GetMutex(); else return
    *(static_cast<std::mutex*>(nullptr));] *)
Definition GetMutexIfAny (k : Slot) : M MutexRef :=
  match slot_TM k with
  | MultiThreaded => MultiThreaded.GetMutex
  | SingleThreaded => log (EvUB NullDeref);; ret null_ref
  end.

(** [CreationPolicy<T>::Destroy(ptr_); ptr_ = nullptr;] *)
Definition Destroy (k : Slot) : M unit :=
  p ← read_ptr k;
  CreationPolicy_Destroy k p;;
  write_ptr k nullptr.

(** [Lock lock(GetMutexIfAny()); if (!ptr_) { ptr_ = Create();
    std::atexit(&Destroy); } return *ptr_;] *)
Definition Instance (k : Slot) (o : NewOutcome) : M addr :=
  m ← GetMutexIfAny k;
  ThreadingModel_Lock (slot_TM k) m;;
  scope (ThreadingModel_Lock_dtor (slot_TM k) m)
    (p ← read_ptr k;
     (if decide (p = nullptr) then
        q ← CreationPolicy_Create k o;
        write_ptr k q;;
        atexit (AtExit_Destroy k)
      else ret ());;
     r ← read_ptr k;
     (if decide (r = nullptr) then log (EvUB NullDeref) else ret ());;
     ret r).
End Singleton.

(** ** Process lifetime *)

Definition run_exit_action (a : ExitAction) : M unit :=
  match a with
  | AtExit_Destroy k => Singleton.Destroy k
  | Dtor_mtx => set_mtx Destructed;; log EvDtor_mtx
  end.

(** One step of normal exit: the top action is popped, then run. *)
Definition exit_step (a : ExitAction) (st : list ExitAction) (w : World) : World :=
  snd ((set_exit_stack st;; run_exit_action a) w).

(** Normal exit: pop and run the registered actions until none is left.
    No action of this program registers another one, so the length of the
    stack is enough fuel ([exit_drains]). *)
Fixpoint exit_loop (fuel : nat) (w : World) : World :=
  match fuel with
  | O => w
  | S n =>
      match exit_stack w with
      | [] => w
      | a :: st => exit_loop n (exit_step a st w)
      end
  end.

Definition exit (w : World) : World := exit_loop (length (exit_stack w)) w.

(** A call of [Instance()] on instantiation [k], with what [new] would do. *)
Definition Call : Type := Slot * NewOutcome.

Definition do_call (w : World) (c : Call) : World :=
  snd (Singleton.Instance c.1 c.2 w).

Definition run_calls (cs : list Call) (w : World) : World := foldl do_call w cs.

(** The worlds a process goes through: the initial one, the one after each
    call, then the one after each exit action. *)
Fixpoint call_states (w : World) (cs : list Call) : list World :=
  w :: match cs with
       | [] => []
       | c :: cs' => call_states (do_call w c) cs'
       end.

Fixpoint exit_states (fuel : nat) (w : World) : list World :=
  match fuel with
  | O => []
  | S n =>
      match exit_stack w with
      | [] => []
      | a :: st => exit_step a st w :: exit_states n (exit_step a st w)
      end
  end.

Definition lifetime (cs : list Call) : list World :=
  let w := run_calls cs initial_world in
  call_states initial_world cs ++ exit_states (length (exit_stack w)) w.

Definition uses_mutex (cs : list Call) : bool :=
  existsb (λ c : Call, bool_decide (slot_TM c.1 = MultiThreaded)) cs.

Definition logger_mt : Slot := MkSlot "Logger" DefaultCreation MultiThreaded.
Definition logger_st : Slot := MkSlot "Logger" DefaultCreation SingleThreaded.
Definition config_mt : Slot := MkSlot "Config" DefaultCreation MultiThreaded.

(** ** Observations on the ghost trace and on the exit stack *)

Fixpoint count_if {A} (f : A → bool) (l : list A) : nat :=
  match l with
  | [] => 0
  | x :: l' => (if f x then 1 else 0) + count_if f l'
  end.

(** Calls of [CreationPolicy<T>::Create()] for instantiation [k]. *)
Definition is_Create (k : Slot) (e : Event) : bool :=
  match e with EvCreate k' _ => bool_decide (k' = k) | _ => false end.

(** Those calls that returned an object. *)
Definition is_Created (k : Slot) (e : Event) : bool :=
  match e with EvCreate k' (Some _) => bool_decide (k' = k) | _ => false end.

Definition is_Destroy (k : Slot) (e : Event) : bool :=
  match e with EvDestroy k' _ => bool_decide (k' = k) | _ => false end.

Definition is_UB (e : Event) : bool :=
  match e with EvUB _ => true | _ => false end.

Definition create_count (k : Slot) (w : World) : nat := count_if (is_Create k) (trace w).
Definition created_count (k : Slot) (w : World) : nat := count_if (is_Created k) (trace w).
Definition destroy_count (k : Slot) (w : World) : nat := count_if (is_Destroy k) (trace w).
Definition mtx_init_count (w : World) : nat :=
  count_if (λ e, bool_decide (e = EvInit_mtx)) (trace w).
Definition mtx_dtor_count (w : World) : nat :=
  count_if (λ e, bool_decide (e = EvDtor_mtx)) (trace w).

(** The pointers handed to [Destroy] for instantiation [k], newest first. *)
Fixpoint destroyed (k : Slot) (tr : list Event) : list addr :=
  match tr with
  | [] => []
  | EvDestroy k' p :: tr' =>
      if decide (k' = k) then p :: destroyed k tr' else destroyed k tr'
  | _ :: tr' => destroyed k tr'
  end.

(** How many times [Destroy] of instantiation [k] is registered for exit. *)
Definition registered (k : Slot) (w : World) : nat :=
  count_if (λ a, bool_decide (a = AtExit_Destroy k)) (exit_stack w).

Definition occupied (k : Slot) (w : World) : bool :=
  bool_decide (ptr_ w k ≠ nullptr).

(** Transitions empty→occupied and occupied→empty along a run. *)
Fixpoint ups (l : list bool) : nat :=
  match l with
  | [] => 0
  | b :: l' =>
      (match b, l' with false, true :: _ => 1 | _, _ => 0 end) + ups l'
  end.

Fixpoint downs (l : list bool) : nat :=
  match l with
  | [] => 0
  | b :: l' =>
      (match b, l' with true, false :: _ => 1 | _, _ => 0 end) + downs l'
  end.

(** ** Symbolic execution of [Instance]

    [Instance] is: enter the guard, run the check-and-create, leave the
    guard.  The three pieces below are what the monadic code computes
    ([Instance_exec]); the proofs go through them. *)

Definition logged (e : Event) (w : World) : World := (log e w).2.

Definition enter (k : Slot) (w : World) : option World :=
  match slot_TM k with
  | SingleThreaded => Some (logged (EvUB NullDeref) w)
  | MultiThreaded =>
      match mtx_state w with
      | NotConstructed =>
          Some {| ptr_ := ptr_ w; live := live w; mtx_state := Locked;
                  exit_stack := Dtor_mtx :: exit_stack w;
                  trace := EvLock :: EvInit_mtx :: trace w |}
      | Unlocked =>
          Some {| ptr_ := ptr_ w; live := live w; mtx_state := Locked;
                  exit_stack := exit_stack w; trace := EvLock :: trace w |}
      | Locked => None
      | Destructed => Some (logged (EvUB DeadMutex) w)
      end
  end.

Definition critical (k : Slot) (o : NewOutcome) (w : World) : Result addr * World :=
  if decide (ptr_ w k = nullptr) then
    match o with
    | NewOk =>
        let p := fresh_addr (live w) in
        (Returned p,
         {| ptr_ := <[k := p]> (ptr_ w); live := {[p]} ∪ live w;
            mtx_state := mtx_state w;
            exit_stack := AtExit_Destroy k :: exit_stack w;
            trace := EvCreate k (Some p) :: trace w |})
    | NewThrows => (Threw, logged (EvCreate k None) w)
    end
  else (Returned (ptr_ w k), w).

Definition leave (k : Slot) (w : World) : World :=
  match slot_TM k with
  | SingleThreaded => w
  | MultiThreaded =>
      match mtx_state w with
      | Locked =>
          {| ptr_ := ptr_ w; live := live w; mtx_state := Unlocked;
             exit_stack := exit_stack w; trace := EvUnlock :: trace w |}
      | _ => logged (EvUB DeadMutex) w
      end
  end.

(** ** The invariant of the worlds a program can be in between calls *)

Definition dtor_registered (w : World) : nat :=
  count_if (λ a, bool_decide (a = Dtor_mtx)) (exit_stack w).

(** The slots: what the check-and-create maintains, whatever the guard. *)
Record slots_ok (w : World) : Prop := MkSlotsOk {
  (* an occupied slot holds a live object, and no other slot holds it *)
  so_live : ∀ k, ptr_ w k ≠ nullptr → ptr_ w k ∈ live w;
  so_inj : ∀ k k', ptr_ w k ≠ nullptr → ptr_ w k = ptr_ w k' → k = k';
  (* teardown is registered once for an occupied slot, not for an empty one *)
  so_registered : ∀ k, registered k w = if occupied k w then 1 else 0;
  so_created : ∀ k, created_count k w = if occupied k w then 1 else 0;
  so_destroyed : ∀ k, destroyed k (trace w) = []
}.

(** The mutex between calls, before exit. *)
Record mutex_ok (w : World) : Prop := MkMutexOk {
  mo_state : mtx_state w = NotConstructed ∨ mtx_state w = Unlocked;
  mo_init :
    mtx_init_count w = if decide (mtx_state w = NotConstructed) then 0 else 1;
  mo_dtor_registered : dtor_registered w = mtx_init_count w;
  mo_dtor : mtx_dtor_count w = 0;
  (* a MultiThreaded slot was created under the mutex *)
  mo_mt : ∀ k, slot_TM k = MultiThreaded → ptr_ w k ≠ nullptr →
          mtx_state w = Unlocked
}.

Definition wf (w : World) : Prop := slots_ok w ∧ mutex_ok w.

(** Two worlds that differ at most in the mutex and in events that are not
    policy calls: what entering and leaving the guard do. *)
Record same_slots (w w' : World) : Prop := MkSameSlots {
  ss_ptr : ptr_ w' = ptr_ w;
  ss_live : live w' = live w;
  ss_registered : ∀ k, registered k w' = registered k w;
  ss_create : ∀ k, create_count k w' = create_count k w;
  ss_created : ∀ k, created_count k w' = created_count k w;
  ss_destroyed : ∀ k, destroyed k (trace w') = destroyed k (trace w)
}.

(** What exit maintains: the part of [slots_ok] that survives teardown. *)
Record exit_ok (w : World) : Prop := MkExitOk {
  eo_live : ∀ k, ptr_ w k ≠ nullptr → ptr_ w k ∈ live w;
  eo_inj : ∀ k k', ptr_ w k ≠ nullptr → ptr_ w k = ptr_ w k' → k = k';
  eo_registered : ∀ k, registered k w = if occupied k w then 1 else 0
}.

(** ** The rest of main.cpp: Logger and main *)

(** The text of the escape [\n]. *)
Definition newline : string := String (Ascii.ascii_of_nat 10) EmptyString.

Module Logger.
(** [void Log(const std::string& msg) { std::cout << "[LOG] " << msg << "\n"; }]
    The receiver is not read; [cout] is the text written so far. *)
Definition Log (this : addr) (msg : string) (cout : string) : string :=
  cout +:+ "[LOG] " +:+ msg +:+ newline.
End Logger.

(** [using LoggerSingleton = Singleton<Logger, DefaultCreation, MultiThreaded>;] *)
Definition LoggerSingleton : Slot := MkSlot "Logger" DefaultCreation MultiThreaded.

(** The process as [main] sees it: the world and standard output. *)
Record Process : Type := MkProcess {
  world : World;
  cout : string
}.

(** [LoggerSingleton::Instance().Log("Hello, Singleton!");
     LoggerSingleton::Instance().Log("Another message"); return 0;]
    [o1] and [o2] are what [new] would do in the first and in the second
    call.  An exception leaves [main]. *)
Definition main (o1 o2 : NewOutcome) (pr : Process) : Result Z * Process :=
  match Singleton.Instance LoggerSingleton o1 (world pr) with
  | (Returned l1, w1) =>
      let out1 := Logger.Log l1 "Hello, Singleton!" (cout pr) in
      match Singleton.Instance LoggerSingleton o2 w1 with
      | (Returned l2, w2) =>
          (Returned 0%Z,
           {| world := w2; cout := Logger.Log l2 "Another message" out1 |})
      | (Threw, w2) => (Threw, {| world := w2; cout := out1 |})
      | (Blocked, w2) => (Blocked, {| world := w2; cout := out1 |})
      end
  | (Threw, w1) => (Threw, {| world := w1; cout := cout pr |})
  | (Blocked, w1) => (Blocked, {| world := w1; cout := cout pr |})
  end.

(** ** Further observations *)

(** The objects [Create()] returned, with their slots, newest first. *)
Fixpoint created_log (tr : list Event) : list (Slot * addr) :=
  match tr with
  | [] => []
  | EvCreate k (Some p) :: tr' => (k, p) :: created_log tr'
  | _ :: tr' => created_log tr'
  end.

(** The pointers [Destroy] received, with their slots, newest first. *)
Fixpoint destroy_log (tr : list Event) : list (Slot * addr) :=
  match tr with
  | [] => []
  | EvDestroy k p :: tr' => (k, p) :: destroy_log tr'
  | _ :: tr' => destroy_log tr'
  end.

(** The slots whose teardown is registered, most recently registered first. *)
Fixpoint teardowns (st : list ExitAction) : list Slot :=
  match st with
  | [] => []
  | AtExit_Destroy k :: st' => k :: teardowns st'
  | Dtor_mtx :: st' => teardowns st'
  end.

(** The exit actions that run after the destructor of [mtx]. *)
Fixpoint below_dtor (st : list ExitAction) : list ExitAction :=
  match st with
  | [] => []
  | Dtor_mtx :: st' => st'
  | AtExit_Destroy _ :: st' => below_dtor st'
  end.

Definition lock_count (w : World) : nat :=
  count_if (λ e, bool_decide (e = EvLock)) (trace w).
Definition unlock_count (w : World) : nat :=
  count_if (λ e, bool_decide (e = EvUnlock)) (trace w).
Definition ub_count (w : World) : nat := count_if is_UB (trace w).

Definition mt_calls (cs : list Call) : nat :=
  count_if (λ c : Call, bool_decide (slot_TM c.1 = MultiThreaded)) cs.
Definition st_calls (cs : list Call) : nat :=
  count_if (λ c : Call, bool_decide (slot_TM c.1 = SingleThreaded)) cs.

(** The heap holds the occupants of the slots and nothing else. *)
Record heap_ok (w : World) : Prop := MkHeapOk {
  ho_nonnull : nullptr ∉ live w;
  ho_owned : ∀ p, p ∈ live w → ∃ k, ptr_ w k = p
}.

(** Teardowns are registered in the order of creation, one per object,
    and nothing was destroyed yet. *)
Record order_ok (w : World) : Prop := MkOrderOk {
  oo_created :
    (λ k, (k, ptr_ w k)) <$> teardowns (exit_stack w) = created_log (trace w);
  oo_destroyed : destroy_log (trace w) = []
}.

(** While a MultiThreaded slot is occupied the mutex is alive and unlocked,
    and the slot's teardown is scheduled to run before the mutex's
    destructor. *)
Definition mutex_alive (w : World) : Prop :=
  ∀ k, slot_TM k = MultiThreaded → ptr_ w k ≠ nullptr →
       mtx_state w = Unlocked ∧ AtExit_Destroy k ∉ below_dtor (exit_stack w).

(** * Proofs *)

Example main_cpp :
  let r1 := Singleton.Instance logger_mt NewOk initial_world in
  let r2 := Singleton.Instance logger_mt NewOk r1.2 in
  r1.1 = Returned 1%N ∧ r2.1 = Returned 1%N ∧
  rev (trace r2.2) =
    [EvInit_mtx; EvLock; EvCreate logger_mt (Some 1%N); EvUnlock; EvLock; EvUnlock] ∧
  exit_stack r2.2 = [AtExit_Destroy logger_mt; Dtor_mtx] ∧
  rev (trace (exit r2.2)) = rev (trace r2.2) ++ [EvDestroy logger_mt 1%N; EvDtor_mtx].
Proof. vm_compute. done. Qed.

Ltac unfold_all :=
  unfold Singleton.Instance, Singleton.Destroy, Singleton.GetMutexIfAny,
    CreationPolicy_Create, CreationPolicy_Destroy,
    ThreadingModel_Lock, ThreadingModel_Lock_dtor,
    DefaultCreation.Create, DefaultCreation.Destroy,
    SingleThreaded.Lock, SingleThreaded.Lock_dtor,
    MultiThreaded.Lock, MultiThreaded.Lock_dtor, MultiThreaded.GetMutex,
    new_T, delete_T, mutex_lock, mutex_unlock, atexit, scope,
    exit_step, run_exit_action, logged, log, read_ptr, write_ptr, set_live, set_mtx, set_exit_stack,
    get_live, get_mtx, get_exit_stack, throw, block, ret,
    mbind, M_bind, mret, M_ret in *.

Lemma fresh_addr_nonnull (h : gset addr) : fresh_addr h ≠ nullptr.
Proof.
  unfold fresh_addr. intros E.
  pose proof (is_fresh ({[nullptr]} ∪ h)) as F. rewrite E in F. set_solver.
Qed.

Lemma fresh_addr_not_live (h : gset addr) : fresh_addr h ∉ h.
Proof.
  unfold fresh_addr.
  pose proof (is_fresh ({[nullptr]} ∪ h)) as F. set_solver.
Qed.

Lemma Instance_exec (k : Slot) (o : NewOutcome) (w : World) :
  Singleton.Instance k o w =
  match enter k w with
  | None => (Blocked, w)
  | Some w0 => ((critical k o w0).1, leave k (critical k o w0).2)
  end.
Proof.
  unfold enter, critical, leave. unfold_all.
  destruct k as [T [] tm]; simpl.
  destruct tm; simpl; [|destruct (mtx_state w) eqn:Hm; simpl; rewrite ?Hm; simpl].
  all: try reflexivity.
  all: match goal with
       | o : NewOutcome |- context [decide (ptr_ ?w ?k = nullptr)] =>
           destruct (decide (ptr_ w k = nullptr)); destruct o; simpl
       end.
  all: rewrite ?fn_lookup_insert.
  all: repeat match goal with
       | |- context [decide (?a = nullptr)] =>
           let H := fresh in
           destruct (decide (a = nullptr)) as [H|H];
           [ first [ by apply fresh_addr_nonnull in H | congruence ] | ]; simpl
       end.
  all: try reflexivity.
Qed.

Lemma Destroy_exec (k : Slot) (w : World) :
  Singleton.Destroy k w =
  (Returned (),
   {| ptr_ := <[k := nullptr]> (ptr_ w);
      live := if decide (ptr_ w k = nullptr) then live w
              else if decide (ptr_ w k ∈ live w) then live w ∖ {[ptr_ w k]}
              else live w;
      mtx_state := mtx_state w;
      exit_stack := exit_stack w;
      trace := if decide (ptr_ w k = nullptr) then EvDestroy k (ptr_ w k) :: trace w
               else if decide (ptr_ w k ∈ live w) then EvDestroy k (ptr_ w k) :: trace w
               else EvUB (BadDelete (ptr_ w k)) :: EvDestroy k (ptr_ w k) :: trace w |}).
Proof.
  unfold_all. destruct k as [T [] tm]; simpl.
  destruct (decide (ptr_ w _ = nullptr)); simpl; [reflexivity|].
  destruct (decide (ptr_ w _ ∈ live w)); reflexivity.
Qed.

Lemma wf_initial : wf initial_world.
Proof. split; split; simpl; try done; auto. Qed.

Ltac slot_cases k0 k :=
  destruct (decide (k0 = k)) as [->|?];
  rewrite ?fn_lookup_insert, ?fn_lookup_insert_ne in * by done.

Ltac obs_simpl :=
  unfold registered, created_count, create_count, destroy_count, occupied,
    mtx_init_count, mtx_dtor_count, dtor_registered in *; simpl in *.

Lemma critical_slots_ok (k : Slot) (o : NewOutcome) (w : World) :
  slots_ok w → slots_ok (critical k o w).2.
Proof.
  intros [Hl Hi Hr Hc Hd]. unfold critical, logged, log.
  destruct (decide (ptr_ w k = nullptr)) as [He|He]; [destruct o|]; simpl.
  - pose proof (fresh_addr_nonnull (live w)) as Hn.
    pose proof (fresh_addr_not_live (live w)) as Hf.
    split; simpl.
    + intros k0 H. slot_cases k0 k; [set_solver|].
      apply Hl in H. set_solver.
    + intros k0 k' H E. slot_cases k0 k; slot_cases k' k; auto.
      * exfalso. apply Hf. rewrite E. apply Hl. congruence.
      * exfalso. apply Hf. rewrite <- E. by apply Hl.
    + intros k0. specialize (Hr k0). obs_simpl.
      slot_cases k0 k.
      * rewrite bool_decide_eq_true_2 by done.
        rewrite (bool_decide_eq_true_2 _ Hn).
        rewrite bool_decide_eq_false_2 in Hr by (intros X; by apply X). lia.
      * rewrite bool_decide_eq_false_2 by congruence. done.
    + intros k0. specialize (Hc k0). obs_simpl.
      slot_cases k0 k.
      * rewrite bool_decide_eq_true_2 by done.
        rewrite (bool_decide_eq_true_2 _ Hn).
        rewrite bool_decide_eq_false_2 in Hc by (intros X; by apply X). lia.
      * rewrite bool_decide_eq_false_2 by congruence. done.
    + done.
  - split; simpl; auto.
  - by split.
Qed.

Lemma critical_mutex_frame (k : Slot) (o : NewOutcome) (w : World) :
  let w' := (critical k o w).2 in
  mtx_state w' = mtx_state w ∧ mtx_init_count w' = mtx_init_count w ∧
  dtor_registered w' = dtor_registered w ∧ mtx_dtor_count w' = mtx_dtor_count w.
Proof.
  unfold critical, logged, log.
  destruct (decide (ptr_ w k = nullptr)); [destruct o|]; simpl; done.
Qed.

Lemma critical_ptr_other (k k' : Slot) (o : NewOutcome) (w : World) :
  k ≠ k' → ptr_ (critical k o w).2 k' = ptr_ w k'.
Proof.
  intros Hk. unfold critical, logged, log.
  destruct (decide (ptr_ w k = nullptr)); [destruct o|]; simpl; try done.
  by rewrite fn_lookup_insert_ne.
Qed.

(** Entering and leaving the guard touch the mutex only. *)
Lemma enter_same_slots (k : Slot) (w w0 : World) :
  enter k w = Some w0 → same_slots w w0.
Proof.
  unfold enter, logged, log.
  destruct (slot_TM k); [|destruct (mtx_state w)]; intros [= <-]; by split.
Qed.

Lemma leave_same_slots (k : Slot) (w : World) : same_slots w (leave k w).
Proof.
  unfold leave, logged, log.
  destruct (slot_TM k); [|destruct (mtx_state w)]; by split.
Qed.

Lemma same_slots_ok (w w' : World) : same_slots w w' → slots_ok w → slots_ok w'.
Proof.
  intros [Hp Hl Hr _ Hc Hd] [? ? ? ? ?].
  split; unfold occupied; rewrite ?Hp, ?Hl; auto.
  - intros k0. rewrite Hr. done.
  - intros k0. rewrite Hc. done.
  - intros k0. rewrite Hd. done.
Qed.

Lemma mutex_ok_Instance (k : Slot) (o : NewOutcome) (w : World) :
  mutex_ok w → mutex_ok (Singleton.Instance k o w).2.
Proof.
  intros [Hm Hi Hdr Hd Hmt]. rewrite Instance_exec.
  unfold enter, critical, leave, logged, log.
  destruct (slot_TM k) eqn:Htm; simpl.
  - assert (∀ k0, slot_TM k0 = MultiThreaded → k ≠ k0) as Hne by congruence.
    destruct (decide (ptr_ w k = nullptr)); [destruct o|]; simpl.
    all: split; obs_simpl; auto.
    intros k0 Hk0. rewrite fn_lookup_insert_ne by auto. by apply Hmt.
  - destruct Hm as [Hm|Hm]; rewrite Hm in *; simpl.
    all: destruct (decide (ptr_ w k = nullptr)); [destruct o|]; simpl.
    all: rewrite ?Htm; simpl.
    all: split; obs_simpl; eauto.
    all: lia.
Qed.

Lemma wf_Instance (k : Slot) (o : NewOutcome) (w : World) :
  wf w → wf (Singleton.Instance k o w).2.
Proof.
  intros [Hs Hm]. split; [|by apply mutex_ok_Instance].
  rewrite Instance_exec.
  destruct (enter k w) as [w0|] eqn:He; simpl; [|done].
  eapply same_slots_ok; [apply leave_same_slots|].
  apply critical_slots_ok.
  eapply same_slots_ok; [eapply enter_same_slots|]; done.
Qed.

Lemma wf_run_calls (cs : list Call) (w : World) : wf w → wf (run_calls cs w).
Proof.
  revert w. induction cs as [|c cs IH]; intros w Hw; simpl; [done|].
  apply IH, wf_Instance, Hw.
Qed.

Lemma wf_reachable (cs : list Call) : wf (run_calls cs initial_world).
Proof. apply wf_run_calls, wf_initial. Qed.

(** ** What one call does to a slot *)

Lemma critical_occupied (k : Slot) (o : NewOutcome) (w : World) :
  ptr_ w k ≠ nullptr → critical k o w = (Returned (ptr_ w k), w).
Proof. intros H. unfold critical. by rewrite decide_False. Qed.

Lemma critical_returned (k : Slot) (o : NewOutcome) (w : World) (p : addr) :
  (critical k o w).1 = Returned p →
  ptr_ (critical k o w).2 k = p ∧ p ≠ nullptr.
Proof.
  unfold critical, logged, log.
  destruct (decide (ptr_ w k = nullptr)); [destruct o|]; simpl; intros [= <-].
  - rewrite fn_lookup_insert. split; [done|apply fresh_addr_nonnull].
  - done.
Qed.

Lemma critical_keeps (k k' : Slot) (o : NewOutcome) (w : World) :
  ptr_ w k' ≠ nullptr → ptr_ (critical k o w).2 k' = ptr_ w k'.
Proof.
  intros H. destruct (decide (k = k')) as [->|Hk].
  - by rewrite critical_occupied.
  - by apply critical_ptr_other.
Qed.

Lemma enter_mtx (k : Slot) (w w0 : World) :
  enter k w = Some w0 →
  slot_TM k = MultiThreaded → mtx_state w0 = Locked ∨ mtx_state w0 = Destructed.
Proof.
  unfold enter, logged, log. intros He Htm. rewrite Htm in He.
  destruct (mtx_state w) eqn:Hm; simplify_eq; simpl; auto.
Qed.

Lemma enter_ST (k : Slot) (w : World) :
  slot_TM k = SingleThreaded → enter k w = Some (logged (EvUB NullDeref) w).
Proof. unfold enter. by intros ->. Qed.

Lemma enter_MT (k : Slot) (w : World) :
  slot_TM k = MultiThreaded → mtx_state w ≠ Locked → is_Some (enter k w).
Proof. unfold enter. intros -> H. destruct (mtx_state w); by eauto. Qed.

Lemma Instance_ptr_other (k k' : Slot) (o : NewOutcome) (w : World) :
  k ≠ k' → ptr_ (Singleton.Instance k o w).2 k' = ptr_ w k'.
Proof.
  intros Hk. rewrite Instance_exec.
  destruct (enter k w) as [w0|] eqn:He; simpl; [|done].
  rewrite (ss_ptr _ _ (leave_same_slots k _)).
  rewrite critical_ptr_other by done.
  by rewrite (ss_ptr _ _ (enter_same_slots k _ _ He)).
Qed.

Lemma Instance_keeps (k k' : Slot) (o : NewOutcome) (w : World) :
  ptr_ w k' ≠ nullptr → ptr_ (Singleton.Instance k o w).2 k' = ptr_ w k'.
Proof.
  intros H. rewrite Instance_exec.
  destruct (enter k w) as [w0|] eqn:He; simpl; [|done].
  pose proof (ss_ptr _ _ (enter_same_slots k _ _ He)) as E0.
  rewrite (ss_ptr _ _ (leave_same_slots k _)).
  rewrite critical_keeps; by rewrite E0.
Qed.

Lemma Instance_not_locked (k : Slot) (o : NewOutcome) (w : World) :
  mtx_state w ≠ Locked → mtx_state (Singleton.Instance k o w).2 ≠ Locked.
Proof.
  intros H. rewrite Instance_exec.
  destruct (enter k w) as [w0|] eqn:He; simpl; [|done].
  destruct (critical_mutex_frame k o w0) as (Hs & _).
  revert He. unfold enter, leave, logged, log.
  destruct (slot_TM k); [|destruct (mtx_state w) eqn:Hm]; intros [= <-];
    simpl in *; rewrite ?Hs; simpl; congruence.
Qed.

Lemma Instance_returns_cached (k : Slot) (o : NewOutcome) (w : World) :
  ptr_ w k ≠ nullptr →
  (slot_TM k = MultiThreaded → mtx_state w ≠ Locked) →
  (Singleton.Instance k o w).1 = Returned (ptr_ w k).
Proof.
  intros Hp Hl. rewrite Instance_exec.
  destruct (enter k w) as [w0|] eqn:He; simpl.
  - pose proof (ss_ptr _ _ (enter_same_slots k _ _ He)) as E0.
    rewrite critical_occupied; by rewrite E0.
  - exfalso. destruct (slot_TM k) eqn:Htm.
    + by rewrite enter_ST in He.
    + destruct (enter_MT k w Htm) as [? ?]; [by apply Hl|congruence].
Qed.

Lemma Instance_returned (k : Slot) (o : NewOutcome) (w : World) (p : addr) :
  (Singleton.Instance k o w).1 = Returned p →
  ptr_ (Singleton.Instance k o w).2 k = p ∧ p ≠ nullptr ∧
  (slot_TM k = MultiThreaded → mtx_state (Singleton.Instance k o w).2 ≠ Locked).
Proof.
  rewrite Instance_exec.
  destruct (enter k w) as [w0|] eqn:He; simpl; [|done].
  intros Hr. destruct (critical_returned _ _ _ _ Hr) as [Hp Hn].
  rewrite (ss_ptr _ _ (leave_same_slots k _)). split; [done|]. split; [done|].
  intros Htm. destruct (critical_mutex_frame k o w0) as (Hs & _).
  destruct (enter_mtx _ _ _ He Htm) as [Hm|Hm];
    unfold leave, logged, log; rewrite Htm, Hs, Hm; simpl; congruence.
Qed.

(** C1. Two calls of [Instance()] on one instantiation, with any calls on
    any instantiations in between and no teardown, return the same object:
    once a call has returned [p], a later call returns [p] too. *)
Theorem C1_single_instance
    (k : Slot) (o1 o2 : NewOutcome) (between : list Call) (w : World) (p : addr) :
  (Singleton.Instance k o1 w).1 = Returned p →
  (Singleton.Instance k o2 (run_calls between (Singleton.Instance k o1 w).2)).1
    = Returned p.
Proof.
  intros Hr. apply Instance_returned in Hr as (Hp & Hn & Hl).
  revert Hp Hl. generalize (Singleton.Instance k o1 w).2. clear w.
  induction between as [|c cs IH]; intros w Hp Hl; simpl.
  - rewrite <- Hp. apply Instance_returns_cached; [congruence|done].
  - apply IH.
    + unfold do_call. rewrite Instance_keeps; congruence.
    + intros Htm. apply Instance_not_locked. auto.
Qed.

Lemma C1_single_instance_witness :
  (Singleton.Instance logger_mt NewOk initial_world).1 = Returned 1%N ∧
  (Singleton.Instance logger_mt NewThrows
     (run_calls [(config_mt, NewOk); (logger_st, NewOk); (logger_mt, NewOk)]
        (Singleton.Instance logger_mt NewOk initial_world).2)).1 = Returned 1%N.
Proof.
  split; [reflexivity|].
  apply (C1_single_instance logger_mt NewOk NewThrows
           [(config_mt, NewOk); (logger_st, NewOk); (logger_mt, NewOk)]
           initial_world 1%N).
  reflexivity.
Defined.

(** ** Counting the calls of the creation policy *)

Lemma critical_create_count (k k' : Slot) (o : NewOutcome) (w : World) :
  create_count k' (critical k o w).2 =
  create_count k' w +
  (if bool_decide (k = k') && negb (occupied k w) then 1 else 0).
Proof.
  unfold critical, logged, log, occupied, create_count.
  destruct (decide (ptr_ w k = nullptr)) as [He|He].
  - rewrite (bool_decide_eq_false_2 (ptr_ w k ≠ nullptr)) by (intros X; by apply X).
    destruct o; simpl; destruct (bool_decide (k = k')); simpl; lia.
  - rewrite (bool_decide_eq_true_2 (ptr_ w k ≠ nullptr)) by done.
    rewrite andb_false_r. simpl. lia.
Qed.

Lemma Instance_create_count (k k' : Slot) (o : NewOutcome) (w : World) :
  create_count k' (Singleton.Instance k o w).2 =
  create_count k' w +
  (if bool_decide (is_Some (enter k w)) && bool_decide (k = k') && negb (occupied k w)
   then 1 else 0).
Proof.
  rewrite Instance_exec.
  destruct (enter k w) as [w0|] eqn:He; simpl.
  - destruct (enter_same_slots k _ _ He) as [Hp _ _ Hc _ _].
    rewrite (ss_create _ _ (leave_same_slots k _)), critical_create_count, Hc.
    unfold occupied. by rewrite Hp.
  - lia.
Qed.

Lemma Instance_create_count_other (k k' : Slot) (o : NewOutcome) (w : World) :
  k ≠ k' → create_count k' (Singleton.Instance k o w).2 = create_count k' w.
Proof.
  intros Hk. rewrite Instance_create_count.
  rewrite (bool_decide_eq_false_2 (k = k')) by done.
  rewrite andb_false_r. simpl. lia.
Qed.

Lemma enter_reachable (k : Slot) (w : World) : mutex_ok w → is_Some (enter k w).
Proof.
  intros [Hm _ _ _ _]. unfold enter.
  destruct (slot_TM k); [eauto|]. destruct Hm as [-> | ->]; eauto.
Qed.

(** A call that finds the slot occupied: nothing but the guard happens. *)
Lemma Instance_hit (k : Slot) (o : NewOutcome) (w : World) :
  wf w → ptr_ w k ≠ nullptr →
  Singleton.Instance k o w =
  (Returned (ptr_ w k),
   {| ptr_ := ptr_ w; live := live w; mtx_state := mtx_state w;
      exit_stack := exit_stack w;
      trace := match slot_TM k with
               | SingleThreaded => [EvUB NullDeref]
               | MultiThreaded => [EvUnlock; EvLock]
               end ++ trace w |}).
Proof.
  intros [_ [_ _ _ _ Hmt]] Hp. rewrite Instance_exec.
  unfold enter, leave, logged, log.
  destruct (slot_TM k) eqn:Htm; simpl.
  - rewrite critical_occupied by done. reflexivity.
  - rewrite (Hmt k Htm Hp). rewrite critical_occupied by done. simpl.
    reflexivity.
Qed.

Lemma enter_not_locked (k : Slot) (w : World) :
  mtx_state w ≠ Locked → is_Some (enter k w).
Proof.
  intros H. destruct (slot_TM k) eqn:Htm.
  - rewrite enter_ST by done. by eexists.
  - by apply enter_MT.
Qed.

Lemma critical_registered (k k' : Slot) (o : NewOutcome) (w : World) :
  registered k' (critical k o w).2 =
  registered k' w +
  (if bool_decide (k = k') && negb (occupied k w) && bool_decide (o = NewOk)
   then 1 else 0).
Proof.
  unfold critical, logged, log, occupied, registered.
  destruct (decide (ptr_ w k = nullptr)) as [He|He].
  - rewrite (bool_decide_eq_false_2 (ptr_ w k ≠ nullptr)) by (intros X; by apply X).
    destruct o; simpl; [|rewrite andb_false_r; simpl; lia].
    rewrite andb_true_r.
    destruct (decide (k = k')) as [->|Hk].
    + rewrite !bool_decide_eq_true_2 by done. simpl. lia.
    + rewrite !bool_decide_eq_false_2 by congruence. simpl. lia.
  - rewrite (bool_decide_eq_true_2 (ptr_ w k ≠ nullptr)) by done.
    rewrite andb_false_r. simpl. lia.
Qed.

Lemma Instance_registered (k k' : Slot) (o : NewOutcome) (w : World) :
  registered k' (Singleton.Instance k o w).2 =
  registered k' w +
  (if bool_decide (is_Some (enter k w)) && bool_decide (k = k')
      && negb (occupied k w) && bool_decide (o = NewOk)
   then 1 else 0).
Proof.
  rewrite Instance_exec.
  destruct (enter k w) as [w0|] eqn:He; simpl; [|lia].
  destruct (enter_same_slots k _ _ He) as [Hp _ Hr _ _ _].
  rewrite (ss_registered _ _ (leave_same_slots k _)), critical_registered, Hr.
  unfold occupied. by rewrite Hp.
Qed.

Lemma critical_created_count (k k' : Slot) (o : NewOutcome) (w : World) :
  created_count k' (critical k o w).2 =
  created_count k' w +
  (if bool_decide (k = k') && negb (occupied k w) && bool_decide (o = NewOk)
   then 1 else 0).
Proof.
  unfold critical, logged, log, occupied, created_count.
  destruct (decide (ptr_ w k = nullptr)) as [He|He].
  - rewrite (bool_decide_eq_false_2 (ptr_ w k ≠ nullptr)) by (intros X; by apply X).
    destruct o; simpl; [|rewrite andb_false_r; simpl; lia].
    rewrite andb_true_r. destruct (bool_decide (k = k')); simpl; lia.
  - rewrite (bool_decide_eq_true_2 (ptr_ w k ≠ nullptr)) by done.
    rewrite andb_false_r. simpl. lia.
Qed.

Lemma Instance_created_count (k k' : Slot) (o : NewOutcome) (w : World) :
  created_count k' (Singleton.Instance k o w).2 =
  created_count k' w +
  (if bool_decide (is_Some (enter k w)) && bool_decide (k = k')
      && negb (occupied k w) && bool_decide (o = NewOk)
   then 1 else 0).
Proof.
  rewrite Instance_exec.
  destruct (enter k w) as [w0|] eqn:He; simpl; [|lia].
  destruct (enter_same_slots k _ _ He) as [Hp _ _ _ Hc _].
  rewrite (ss_created _ _ (leave_same_slots k _)), critical_created_count, Hc.
  unfold occupied. by rewrite Hp.
Qed.

Lemma critical_live_mono (k : Slot) (o : NewOutcome) (w : World) :
  live w ⊆ live (critical k o w).2.
Proof.
  unfold critical, logged, log.
  destruct (decide (ptr_ w k = nullptr)); [destruct o|]; simpl; set_solver.
Qed.

Lemma Instance_live_mono (k : Slot) (o : NewOutcome) (w : World) :
  live w ⊆ live (Singleton.Instance k o w).2.
Proof.
  rewrite Instance_exec.
  destruct (enter k w) as [w0|] eqn:He; simpl; [|done].
  rewrite (ss_live _ _ (leave_same_slots k _)).
  rewrite <- (ss_live _ _ (enter_same_slots k _ _ He)).
  apply critical_live_mono.
Qed.

(** A call that finds the slot empty, when [new T()] throws. *)
Lemma Instance_miss_throws (k : Slot) (w : World) :
  ptr_ w k = nullptr → mtx_state w ≠ Locked →
  let r := Singleton.Instance k NewThrows w in
  r.1 = Threw ∧ ptr_ r.2 = ptr_ w ∧ live r.2 = live w.
Proof.
  intros Hp Hl. simpl. rewrite Instance_exec.
  destruct (enter_not_locked k w Hl) as [w0 He]. rewrite He. simpl.
  destruct (enter_same_slots k _ _ He) as [Ep El _ _ _ _].
  rewrite (ss_ptr _ _ (leave_same_slots k _)), (ss_live _ _ (leave_same_slots k _)).
  unfold critical. rewrite decide_True by (by rewrite Ep). simpl. done.
Qed.

(** A call that finds the slot empty, when [new T()] returns. *)
Lemma Instance_miss_ok (k : Slot) (w : World) :
  ptr_ w k = nullptr → mtx_state w ≠ Locked →
  let r := Singleton.Instance k NewOk w in
  r.1 = Returned (fresh_addr (live w)) ∧
  ptr_ r.2 = <[k := fresh_addr (live w)]> (ptr_ w) ∧
  live r.2 = {[fresh_addr (live w)]} ∪ live w.
Proof.
  intros Hp Hl. simpl. rewrite Instance_exec.
  destruct (enter_not_locked k w Hl) as [w0 He]. rewrite He. simpl.
  destruct (enter_same_slots k _ _ He) as [Ep El _ _ _ _].
  rewrite (ss_ptr _ _ (leave_same_slots k _)), (ss_live _ _ (leave_same_slots k _)).
  unfold critical. rewrite decide_True by (by rewrite Ep). simpl.
  by rewrite Ep, El.
Qed.

(** C2, as the claim states it, fails: when [Create()] throws on the first
    call, the second call invokes it again. *)
Lemma C2_counterexample :
  ¬ (∀ (k : Slot) (cs : list Call),
       k ∈ cs.*1 → create_count k (run_calls cs initial_world) = 1).
Proof.
  intros H.
  specialize (H logger_mt [(logger_mt, NewThrows); (logger_mt, NewOk)]).
  assert (create_count logger_mt
            (run_calls [(logger_mt, NewThrows); (logger_mt, NewOk)] initial_world)
          = 2) as E by (by vm_compute).
  rewrite E in H. assert (2 = 1) by (apply H; set_solver). lia.
Qed.

(** C2, amended. [Create()] is never invoked at process start, and for an
    instantiation it is invoked only by an [Instance()] call of that
    instantiation that finds the slot empty (so again after an attempt that
    threw).  It returns an object at most once: exactly once when the slot
    is occupied.  A call that finds the slot occupied skips creation,
    returns the cached pointer and leaves the pointers, the heap, the mutex
    and the exit registrations as they were. *)
Theorem C2_lazy_creation (cs : list Call) (k k' : Slot) (o : NewOutcome) :
  let w := run_calls cs initial_world in
  let r := Singleton.Instance k o w in
  create_count k initial_world = 0
  ∧ created_count k w = (if occupied k w then 1 else 0)
  ∧ create_count k' r.2 =
      create_count k' w + (if bool_decide (k = k') && negb (occupied k w) then 1 else 0)
  ∧ (if occupied k w
     then r.1 = Returned (ptr_ w k) ∧ ptr_ r.2 = ptr_ w ∧ live r.2 = live w ∧
          mtx_state r.2 = mtx_state w ∧ exit_stack r.2 = exit_stack w
     else match o with
          | NewOk => r.1 = Returned (ptr_ r.2 k) ∧ occupied k r.2 = true
          | NewThrows => r.1 = Threw ∧ occupied k r.2 = false
          end).
Proof.
  intros w r. pose proof (wf_reachable cs) as Hw. fold w in Hw.
  assert (mtx_state w ≠ Locked) as Hl.
  { destruct Hw as [_ [[Hm|Hm] _ _ _ _]]; congruence. }
  split; [reflexivity|]. split; [apply Hw|]. split.
  - subst r. rewrite Instance_create_count.
    rewrite (bool_decide_eq_true_2 (is_Some _)) by (apply enter_reachable, Hw). done.
  - unfold occupied. case_bool_decide as Hp.
    + subst r. rewrite (Instance_hit k o w Hw Hp). done.
    + assert (ptr_ w k = nullptr) as Hp' by (by destruct (decide (ptr_ w k = nullptr))).
      subst r. destruct o.
      * destruct (Instance_miss_ok k w Hp' Hl) as (-> & -> & _).
        rewrite fn_lookup_insert. split; [done|].
        apply bool_decide_eq_true_2, fresh_addr_nonnull.
      * destruct (Instance_miss_throws k w Hp' Hl) as (-> & -> & _).
        split; [done|]. apply bool_decide_eq_false_2. by intros X.
Qed.

(** C3. When [Create()] throws on a call that finds the slot empty, the
    call throws, every slot and the heap are as before, no teardown is
    registered, and the guard is released.  A later call invokes
    [Create()] again: it throws again if creation fails again, and returns
    the new object and registers teardown if creation succeeds. *)
Theorem C3_failed_creation (k : Slot) (w : World) (o : NewOutcome) :
  ptr_ w k = nullptr → mtx_state w ≠ Locked →
  let r := Singleton.Instance k NewThrows w in
  let r' := Singleton.Instance k o r.2 in
  r.1 = Threw
  ∧ ptr_ r.2 = ptr_ w ∧ live r.2 = live w
  ∧ (∀ k', registered k' r.2 = registered k' w)
  ∧ mtx_state r.2 ≠ Locked
  ∧ create_count k r'.2 = S (create_count k r.2)
  ∧ match o with
    | NewOk => r'.1 = Returned (ptr_ r'.2 k) ∧ ptr_ r'.2 k ≠ nullptr ∧
               registered k r'.2 = S (registered k w)
    | NewThrows => r'.1 = Threw ∧ ptr_ r'.2 k = nullptr
    end.
Proof.
  intros Hp Hl r r'.
  destruct (Instance_miss_throws k w Hp Hl) as (Hr & Ep & El). fold r in Hr, Ep, El.
  assert (mtx_state r.2 ≠ Locked) as Hl' by (by apply Instance_not_locked).
  assert (ptr_ r.2 k = nullptr) as Hp' by (by rewrite Ep).
  assert (∀ k', registered k' r.2 = registered k' w) as Hreg.
  { intros k'. subst r. rewrite Instance_registered.
    rewrite (bool_decide_eq_false_2 (NewThrows = NewOk)) by done.
    rewrite andb_false_r. lia. }
  assert (occupied k r.2 = false) as Hocc.
  { apply bool_decide_eq_false_2. by intros X. }
  repeat split; try done.
  - subst r'. rewrite Instance_create_count, Hocc.
    rewrite (bool_decide_eq_true_2 (is_Some _)) by (by apply enter_not_locked).
    rewrite (bool_decide_eq_true_2 (k = k)) by done. simpl. lia.
  - subst r'. destruct o.
    + destruct (Instance_miss_ok k r.2 Hp' Hl') as (E1 & E2 & _).
      rewrite E1, E2, fn_lookup_insert. split; [done|].
      split; [apply fresh_addr_nonnull|].
      rewrite Instance_registered, Hocc, Hreg.
      rewrite (bool_decide_eq_true_2 (is_Some _)) by (by apply enter_not_locked).
      rewrite (bool_decide_eq_true_2 (k = k)) by done.
      rewrite (bool_decide_eq_true_2 (NewOk = NewOk)) by done. simpl. lia.
    + destruct (Instance_miss_throws k r.2 Hp' Hl') as (E1 & E2 & _).
      by rewrite E1, E2.
Qed.

Lemma C3_failed_creation_witness :
  let r := Singleton.Instance logger_mt NewThrows initial_world in
  let r' := Singleton.Instance logger_mt NewOk r.2 in
  r.1 = Threw ∧ exit_stack r.2 = [Dtor_mtx] ∧
  create_count logger_mt r'.2 = S (create_count logger_mt r.2) ∧
  r'.1 = Returned (ptr_ r'.2 logger_mt).
Proof.
  destruct (C3_failed_creation logger_mt initial_world NewOk)
    as (H1 & _ & _ & _ & _ & H2 & H3 & _); [reflexivity|by vm_compute|].
  split; [exact H1|]. split; [reflexivity|]. split; [exact H2|exact H3].
Defined.

(** C7. A call of [Instance()] on one instantiation leaves every other
    instantiation alone: its pointer, its object, its teardown
    registrations and the number of [Create()] calls made for it. *)
Theorem C7_independent_slots (k k' : Slot) (o : NewOutcome) (w : World) :
  k ≠ k' →
  let w' := (Singleton.Instance k o w).2 in
  ptr_ w' k' = ptr_ w k'
  ∧ create_count k' w' = create_count k' w
  ∧ created_count k' w' = created_count k' w
  ∧ registered k' w' = registered k' w
  ∧ (ptr_ w k' ∈ live w → ptr_ w' k' ∈ live w').
Proof.
  intros Hk w'. subst w'.
  rewrite Instance_ptr_other by done.
  rewrite Instance_create_count_other by done.
  rewrite Instance_registered, Instance_created_count.
  rewrite !(bool_decide_eq_false_2 (k = k')) by done.
  rewrite !andb_false_r. simpl.
  repeat split; try lia.
  intros H. by apply Instance_live_mono.
Qed.

Lemma C7_independent_slots_witness :
  let w := (Singleton.Instance config_mt NewOk initial_world).2 in
  let w' := (Singleton.Instance logger_mt NewOk w).2 in
  logger_mt ≠ config_mt ∧ ptr_ w' config_mt = ptr_ w config_mt ∧
  create_count config_mt w' = create_count config_mt w.
Proof.
  assert (logger_mt ≠ config_mt) as Hne by (by intros [=]).
  destruct (C7_independent_slots logger_mt config_mt NewOk
              (Singleton.Instance config_mt NewOk initial_world).2 Hne)
    as (H1 & H2 & _).
  split; [exact Hne|]. split; [exact H1|exact H2].
Defined.

(** ** Normal exit *)

Lemma exit_step_Destroy (k : Slot) (st : list ExitAction) (w : World) :
  exit_step (AtExit_Destroy k) st w =
  {| ptr_ := <[k := nullptr]> (ptr_ w);
     live := if decide (ptr_ w k = nullptr) then live w
             else if decide (ptr_ w k ∈ live w) then live w ∖ {[ptr_ w k]}
             else live w;
     mtx_state := mtx_state w;
     exit_stack := st;
     trace := if decide (ptr_ w k = nullptr) then EvDestroy k (ptr_ w k) :: trace w
              else if decide (ptr_ w k ∈ live w) then EvDestroy k (ptr_ w k) :: trace w
              else EvUB (BadDelete (ptr_ w k)) :: EvDestroy k (ptr_ w k) :: trace w |}.
Proof.
  unfold exit_step, run_exit_action, mbind, M_bind, set_exit_stack. simpl.
  by rewrite Destroy_exec.
Qed.

Lemma exit_step_Dtor_mtx (st : list ExitAction) (w : World) :
  exit_step Dtor_mtx st w =
  {| ptr_ := ptr_ w; live := live w; mtx_state := Destructed;
     exit_stack := st; trace := EvDtor_mtx :: trace w |}.
Proof. reflexivity. Qed.

Lemma slots_ok_exit_ok (w : World) : slots_ok w → exit_ok w.
Proof. intros [? ? ? _ _]. by split. Qed.

Lemma occupied_true (k : Slot) (w : World) :
  occupied k w = true ↔ ptr_ w k ≠ nullptr.
Proof. unfold occupied. by rewrite bool_decide_eq_true. Qed.

Lemma occupied_false (k : Slot) (w : World) :
  occupied k w = false ↔ ptr_ w k = nullptr.
Proof.
  unfold occupied. rewrite bool_decide_eq_false.
  destruct (decide (ptr_ w k = nullptr)); naive_solver.
Qed.

Lemma exit_step_ok (a : ExitAction) (st : list ExitAction) (w : World) :
  exit_ok w → exit_stack w = a :: st → exit_ok (exit_step a st w).
Proof.
  intros [Hl Hi Hr] Hst. destruct a as [k0|].
  - rewrite exit_step_Destroy.
    assert (ptr_ w k0 ≠ nullptr) as Hp0.
    { specialize (Hr k0). unfold registered in Hr. rewrite Hst in Hr. simpl in Hr.
      rewrite bool_decide_eq_true_2 in Hr by done.
      destruct (occupied k0 w) eqn:Ho; [by apply occupied_true|lia]. }
    rewrite !(decide_False (P := ptr_ w k0 = nullptr)) by done.
    rewrite !(decide_True (P := ptr_ w k0 ∈ live w)) by auto.
    split; simpl.
    + intros k H. slot_cases k k0; [done|].
      specialize (Hl k H). assert (ptr_ w k ≠ ptr_ w k0); [|set_solver].
      intros E. by apply Hi in E.
    + intros k k' H E. slot_cases k k0; [done|].
      slot_cases k' k0; [congruence|]. by apply Hi.
    + intros k. specialize (Hr k). unfold registered, occupied in *.
      rewrite Hst in Hr. simpl in *. slot_cases k k0.
      * rewrite bool_decide_eq_true_2 in Hr by done.
        rewrite (bool_decide_eq_true_2 _ Hp0) in Hr.
        rewrite (bool_decide_eq_false_2 (nullptr ≠ nullptr)) by (intros X; by apply X).
        lia.
      * rewrite bool_decide_eq_false_2 in Hr by congruence. done.
  - rewrite exit_step_Dtor_mtx. split; simpl; auto.
    intros k. specialize (Hr k). unfold registered, occupied in *.
    rewrite Hst in Hr. simpl in *. done.
Qed.

Lemma exit_step_ptr (a : ExitAction) (st : list ExitAction) (w : World) (k : Slot) :
  ptr_ (exit_step a st w) k =
  if decide (a = AtExit_Destroy k) then nullptr else ptr_ w k.
Proof.
  destruct a as [k0|].
  - rewrite exit_step_Destroy. simpl. destruct (decide (k0 = k)) as [->|Hk].
    + by rewrite fn_lookup_insert, decide_True.
    + rewrite fn_lookup_insert_ne by done. rewrite decide_False; congruence.
  - by rewrite exit_step_Dtor_mtx, decide_False.
Qed.

Lemma exit_step_live (a : ExitAction) (st : list ExitAction) (w : World) :
  live (exit_step a st w) ⊆ live w.
Proof.
  destruct a as [k0|]; [|done]. rewrite exit_step_Destroy. simpl.
  destruct (decide (ptr_ w k0 = nullptr)); [|destruct (decide (ptr_ w k0 ∈ live w))];
    [done|by apply subseteq_difference_l|done].
Qed.

Lemma exit_step_stack (a : ExitAction) (st : list ExitAction) (w : World) :
  exit_stack (exit_step a st w) = st.
Proof.
  destruct a as [k0|]; [|done]. by rewrite exit_step_Destroy.
Qed.

Lemma exit_loop_live (n : nat) (w : World) : live (exit_loop n w) ⊆ live w.
Proof.
  revert w. induction n as [|n IH]; intros w; simpl; [done|].
  destruct (exit_stack w) as [|a st]; [done|].
  etrans; [apply IH|apply exit_step_live].
Qed.

(** The fuel [exit] gives is enough: the stack is empty afterwards. *)
Lemma exit_loop_drains (n : nat) (w : World) :
  length (exit_stack w) ≤ n → exit_stack (exit_loop n w) = [].
Proof.
  revert w. induction n as [|n IH]; intros w Hn; simpl.
  - destruct (exit_stack w); [done|simpl in Hn; lia].
  - destruct (exit_stack w) as [|a st] eqn:Hst; [done|].
    apply IH. rewrite exit_step_stack. simpl in Hn. lia.
Qed.

Lemma exit_drains (w : World) : exit_stack (exit w) = [].
Proof. by apply exit_loop_drains. Qed.

Lemma exit_step_destroyed (a : ExitAction) (st : list ExitAction) (w : World) (k : Slot) :
  destroyed k (trace (exit_step a st w)) =
  (if decide (a = AtExit_Destroy k) then [ptr_ w k] else []) ++ destroyed k (trace w).
Proof.
  destruct a as [k0|].
  - rewrite exit_step_Destroy. simpl. destruct (decide (k0 = k)) as [->|Hk].
    + destruct (decide (ptr_ w k = nullptr)); [|destruct (decide (ptr_ w k ∈ live w))];
        simpl; by rewrite !decide_True.
    + destruct (decide (ptr_ w k0 = nullptr)); [|destruct (decide (ptr_ w k0 ∈ live w))];
        simpl; rewrite !decide_False by congruence; done.
  - by rewrite exit_step_Dtor_mtx, decide_False.
Qed.

Lemma exit_loop_slot (k : Slot) (n : nat) (w : World) :
  exit_ok w → length (exit_stack w) ≤ n →
  ptr_ (exit_loop n w) k = nullptr
  ∧ destroyed k (trace (exit_loop n w)) =
      (if occupied k w then [ptr_ w k] else []) ++ destroyed k (trace w)
  ∧ (ptr_ w k ≠ nullptr → ptr_ w k ∉ live (exit_loop n w)).
Proof.
  revert w. induction n as [|n IH]; intros w Hw Hn.
  - assert (exit_stack w = []) as Hst by (destruct (exit_stack w); [done|simpl in Hn; lia]).
    pose proof (eo_registered w Hw k) as Hr. unfold registered in Hr.
    rewrite Hst in Hr. simpl in *.
    destruct (occupied k w) eqn:Ho; [lia|]. apply occupied_false in Ho. done.
  - simpl. destruct (exit_stack w) as [|a st] eqn:Hst.
    + pose proof (eo_registered w Hw k) as Hr. unfold registered in Hr.
      rewrite Hst in Hr. simpl in *.
      destruct (occupied k w) eqn:Ho; [lia|]. apply occupied_false in Ho. done.
    + pose proof (exit_step_ok a st w Hw Hst) as Hw1.
      destruct (IH (exit_step a st w) Hw1) as (I1 & I2 & I3).
      { rewrite exit_step_stack. simpl in Hn. lia. }
      split; [done|]. rewrite I2, exit_step_destroyed.
      unfold occupied in *. rewrite exit_step_ptr in *.
      destruct (decide (a = AtExit_Destroy k)) as [->|Ha].
      * assert (ptr_ w k ≠ nullptr) as Hp.
        { pose proof (eo_registered w Hw k) as Hr. unfold registered in Hr.
          rewrite Hst in Hr. simpl in Hr.
          rewrite bool_decide_eq_true_2 in Hr by done.
          destruct (occupied k w) eqn:Ho; [by apply occupied_true|lia]. }
        rewrite (bool_decide_eq_false_2 (nullptr ≠ nullptr)) by (intros X; by apply X).
        rewrite (bool_decide_eq_true_2 _ Hp). split; [done|].
        intros _ Hin. apply exit_loop_live in Hin.
        rewrite exit_step_Destroy in Hin. simpl in Hin.
        rewrite (decide_False (P := ptr_ w k = nullptr)) in Hin by done.
        destruct (decide (ptr_ w k ∈ live w)); [|done].
        apply elem_of_difference in Hin as [_ Hin]. apply Hin.
        by apply elem_of_singleton.
      * split; [done|]. done.
Qed.

(** ** Whole runs *)

Lemma run_calls_keeps (cs : list Call) (w : World) (k : Slot) :
  ptr_ w k ≠ nullptr → ptr_ (run_calls cs w) k = ptr_ w k.
Proof.
  revert w. induction cs as [|c cs IH]; intros w Hp; simpl; [done|].
  rewrite IH; unfold do_call; rewrite Instance_keeps; done.
Qed.

Lemma run_calls_app (cs1 cs2 : list Call) (w : World) :
  run_calls (cs1 ++ cs2) w = run_calls cs2 (run_calls cs1 w).
Proof. apply foldl_app. Qed.

Lemma destroy_count_destroyed (k : Slot) (w : World) :
  destroy_count k w = length (destroyed k (trace w)).
Proof.
  unfold destroy_count. induction (trace w) as [|e tr IH]; [done|].
  destruct e; simpl; try done.
  destruct (decide (k0 = k)) as [->|Hk].
  - rewrite bool_decide_eq_true_2 by done. simpl. by rewrite IH.
  - by rewrite bool_decide_eq_false_2.
Qed.

(** C4. For a slot that was occupied at some point of the run, [Destroy]
    is not invoked before exit, teardown is registered once, and exit
    invokes [Destroy] exactly once, on the occupant; afterwards the object
    is released, the slot is empty and no exit action is left to run. *)
Theorem C4_teardown (cs : list Call) (k : Slot) (n : nat) :
  ptr_ (run_calls (take n cs) initial_world) k ≠ nullptr →
  let w := run_calls cs initial_world in
  ptr_ w k ≠ nullptr ∧ ptr_ w k ∈ live w
  ∧ destroy_count k w = 0 ∧ registered k w = 1
  ∧ destroy_count k (exit w) = 1
  ∧ destroyed k (trace (exit w)) = [ptr_ w k]
  ∧ ptr_ (exit w) k = nullptr
  ∧ (ptr_ w k ∉ live (exit w))
  ∧ exit_stack (exit w) = [].
Proof.
  intros Hn w.
  assert (ptr_ w k ≠ nullptr) as Hp.
  { subst w. rewrite <- (take_drop n cs), run_calls_app.
    by rewrite run_calls_keeps. }
  destruct (wf_reachable cs) as [Hs _]. fold w in Hs.
  destruct (exit_loop_slot k (length (exit_stack w)) w) as (E1 & E2 & E3);
    [by apply slots_ok_exit_ok|done|].
  pose proof (so_registered w Hs k) as Hr.
  rewrite (proj2 (occupied_true k w) Hp) in Hr, E2.
  rewrite (so_destroyed w Hs k) in E2.
  split; [done|]. split; [by apply (so_live w Hs)|].
  split; [by rewrite destroy_count_destroyed, (so_destroyed w Hs)|].
  split; [done|].
  split; [unfold exit; by rewrite destroy_count_destroyed, E2|].
  split; [done|]. split; [done|]. split; [by apply E3|apply exit_drains].
Qed.

Lemma C4_teardown_witness :
  let cs := [(logger_mt, NewThrows); (logger_mt, NewOk); (config_mt, NewOk)] in
  let w := run_calls cs initial_world in
  ptr_ (run_calls (take 2 cs) initial_world) logger_mt ≠ nullptr ∧
  destroyed logger_mt (trace (exit w)) = [ptr_ w logger_mt] ∧
  ptr_ (exit w) logger_mt = nullptr.
Proof.
  assert (ptr_ (run_calls (take 2 [(logger_mt, NewThrows); (logger_mt, NewOk);
                                   (config_mt, NewOk)]) initial_world) logger_mt
          ≠ nullptr) as H by (by vm_compute).
  destruct (C4_teardown _ _ _ H) as (_ & _ & _ & _ & _ & H1 & H2 & _).
  split; [exact H|]. split; [exact H1|exact H2].
Defined.

(** ** The life of a slot *)

Lemma call_states_ok (cs : list Call) (w w' : World) :
  wf w → w' ∈ call_states w cs → wf w'.
Proof.
  revert w. induction cs as [|c cs IH]; intros w Hw Hin; simpl in Hin.
  - apply list_elem_of_singleton in Hin. by subst.
  - apply elem_of_cons in Hin as [->|Hin]; [done|].
    apply (IH (do_call w c)); [by apply wf_Instance|done].
Qed.

Lemma exit_states_ok (n : nat) (w w' : World) :
  exit_ok w → w' ∈ exit_states n w → exit_ok w'.
Proof.
  revert w. induction n as [|n IH]; intros w Hw Hin; simpl in Hin.
  - by apply elem_of_nil in Hin.
  - destruct (exit_stack w) as [|a st] eqn:Hst; [by apply elem_of_nil in Hin|].
    pose proof (exit_step_ok a st w Hw Hst) as Hw1.
    apply elem_of_cons in Hin as [->|Hin]; [done|]. by apply (IH _ Hw1).
Qed.

Lemma call_states_occupied (k : Slot) (cs : list Call) (w : World) :
  occupied k w = true →
  occupied k <$> call_states w cs = replicate (S (length cs)) true.
Proof.
  revert w. induction cs as [|c cs IH]; intros w Ho; simpl; rewrite Ho; [done|].
  f_equal. apply IH. apply occupied_true. unfold do_call.
  rewrite Instance_keeps; by apply occupied_true.
Qed.

Lemma call_states_shape (k : Slot) (cs : list Call) (w : World) :
  ∃ a b, occupied k <$> call_states w cs = replicate a false ++ replicate b true
         ∧ (occupied k (run_calls cs w) = false → b = 0).
Proof.
  revert w. induction cs as [|c cs IH]; intros w.
  - simpl. destruct (occupied k w) eqn:Ho.
    + by exists 0, 1.
    + by exists 1, 0.
  - destruct (occupied k w) eqn:Ho.
    + exists 0, (S (length (c :: cs))). split; [by apply call_states_occupied|].
      intros Hf. apply occupied_true in Ho. apply occupied_false in Hf.
      by rewrite run_calls_keeps in Hf.
    + destruct (IH (do_call w c)) as (a & b & E & Hb).
      exists (S a), b. split; [|done].
      change (call_states w (c :: cs)) with (w :: call_states (do_call w c) cs).
      by rewrite fmap_cons, Ho, E.
Qed.

Lemma exit_states_shape (k : Slot) (n : nat) (w : World) :
  ∃ b c, occupied k <$> exit_states n w = replicate b true ++ replicate c false
         ∧ (occupied k w = false → b = 0).
Proof.
  revert w. induction n as [|n IH]; intros w; cbn [exit_states].
  - by exists 0, 0.
  - destruct (exit_stack w) as [|a st]; [by exists 0, 0|].
    destruct (IH (exit_step a st w)) as (b & c & E & Hb).
    rewrite fmap_cons, E.
    destruct (occupied k (exit_step a st w)) eqn:Ho.
    + exists (S b), c. split; [done|].
      intros Hf. apply occupied_true in Ho. apply occupied_false in Hf.
      rewrite exit_step_ptr in Ho. by destruct (decide (a = AtExit_Destroy k)).
    + rewrite (Hb eq_refl). by exists 0, (S c).
Qed.

Lemma ups_false_tail (c : nat) : ups (replicate c false) = 0.
Proof. induction c as [|c IH]; [done|]. simpl. rewrite IH. by destruct c. Qed.

Lemma downs_false_tail (c : nat) : downs (replicate c false) = 0.
Proof. induction c as [|c IH]; [done|]. simpl. by rewrite IH. Qed.

Lemma downs_true_false (b c : nat) :
  downs (replicate b true ++ replicate c false) ≤ 1.
Proof.
  induction b as [|b IH]; simpl.
  - rewrite downs_false_tail. lia.
  - destruct b as [|b]; simpl in *; [|lia].
    rewrite downs_false_tail. destruct c; simpl; lia.
Qed.

Lemma ups_true_false (b c : nat) : ups (replicate b true ++ replicate c false) = 0.
Proof.
  induction b as [|b IH]; simpl; [apply ups_false_tail|]. by rewrite IH.
Qed.

Lemma ups_shape (a b c : nat) :
  ups (replicate a false ++ replicate b true ++ replicate c false) ≤ 1.
Proof.
  induction a as [|a IH]; simpl.
  - rewrite ups_true_false. lia.
  - destruct a as [|a]; simpl in *.
    + rewrite ups_true_false. destruct b; simpl; [|lia].
      destruct c; simpl; lia.
    + lia.
Qed.

Lemma downs_shape (a b c : nat) :
  downs (replicate a false ++ replicate b true ++ replicate c false) ≤ 1.
Proof.
  induction a as [|a IH]; simpl.
  - apply downs_true_false.
  - destruct a; simpl in *; [|lia]. destruct b; simpl in *; lia.
Qed.

(** C5. Along the whole life of a process (any calls, then exit) a slot is
    empty or holds one live object no other slot holds; it becomes
    occupied at most once, becomes empty again at most once, and nothing
    follows: the states read empty*, occupied*, empty*. *)
Theorem C5_slot_lifecycle (cs : list Call) (k : Slot) :
  let ws := lifetime cs in
  (∀ w, w ∈ ws →
        if occupied k w
        then ptr_ w k ∈ live w ∧ ∀ k', ptr_ w k' = ptr_ w k → k' = k
        else ptr_ w k = nullptr)
  ∧ ups (occupied k <$> ws) ≤ 1
  ∧ downs (occupied k <$> ws) ≤ 1
  ∧ ∃ a b c, occupied k <$> ws
             = replicate a false ++ replicate b true ++ replicate c false.
Proof.
  intros ws.
  assert (∃ a b c, occupied k <$> ws
             = replicate a false ++ replicate b true ++ replicate c false) as Hshape.
  { subst ws. unfold lifetime. rewrite fmap_app.
    destruct (call_states_shape k cs initial_world) as (a & b & E1 & Hb).
    destruct (exit_states_shape k
                (length (exit_stack (run_calls cs initial_world)))
                (run_calls cs initial_world)) as (b' & c & E2 & Hb').
    rewrite E1, E2.
    destruct (occupied k (run_calls cs initial_world)) eqn:Ho.
    - exists a, (b + b'), c. by rewrite replicate_add, <- !app_assoc.
    - rewrite (Hb eq_refl), (Hb' eq_refl). exists a, 0, c. simpl.
      by rewrite app_nil_r. }
  split; [|split; [|split]]; [| | |done].
  - intros w Hin. subst ws. unfold lifetime in Hin.
    assert (exit_ok w) as [Hl Hi _].
    { apply elem_of_app in Hin as [Hin|Hin].
      - apply slots_ok_exit_ok.
        by destruct (call_states_ok cs initial_world w wf_initial Hin).
      - eapply exit_states_ok; [|done].
        apply slots_ok_exit_ok. by destruct (wf_reachable cs). }
    destruct (occupied k w) eqn:Ho.
    + apply occupied_true in Ho. split; [by apply Hl|].
      intros k' E. symmetry. apply Hi; [done|congruence].
    + by apply occupied_false.
  - destruct Hshape as (a & b & c & ->). apply ups_shape.
  - destruct Hshape as (a & b & c & ->). apply downs_shape.
Qed.

Lemma C5_slot_lifecycle_witness :
  let ws := lifetime [(config_mt, NewOk); (logger_mt, NewThrows); (logger_mt, NewOk)] in
  occupied logger_mt <$> ws = [false; false; false; true; false; false; false]
  ∧ ups (occupied logger_mt <$> ws) ≤ 1 ∧ downs (occupied logger_mt <$> ws) ≤ 1.
Proof.
  split; [by vm_compute|].
  destruct (C5_slot_lifecycle
              [(config_mt, NewOk); (logger_mt, NewThrows); (logger_mt, NewOk)]
              logger_mt) as (_ & H1 & H2 & _).
  split; [exact H1|exact H2].
Defined.

(** ** The mutex *)

Lemma Instance_mtx_state (k : Slot) (o : NewOutcome) (w : World) :
  mutex_ok w →
  mtx_state (Singleton.Instance k o w).2 =
  if bool_decide (slot_TM k = MultiThreaded) then Unlocked else mtx_state w.
Proof.
  intros [Hm _ _ _ _]. rewrite Instance_exec.
  unfold enter, leave, logged, log.
  destruct (slot_TM k) eqn:Htm; simpl; [|destruct Hm as [Hm|Hm]; rewrite Hm; simpl].
  all: match goal with
       | |- context [critical ?k ?o ?w0] =>
           destruct (critical_mutex_frame k o w0) as (-> & _)
       end; simpl; rewrite ?Htm; done.
Qed.

Lemma run_calls_mtx_state (cs : list Call) (w : World) :
  mutex_ok w →
  mtx_state (run_calls cs w) = if uses_mutex cs then Unlocked else mtx_state w.
Proof.
  revert w. induction cs as [|[k o] cs IH]; intros w Hw; simpl; [done|].
  rewrite IH by (by apply mutex_ok_Instance).
  unfold do_call. simpl. rewrite Instance_mtx_state by done.
  destruct (bool_decide (slot_TM k = MultiThreaded)); simpl; [|done].
  by destruct (uses_mutex cs).
Qed.

Lemma exit_step_dtor (a : ExitAction) (st : list ExitAction) (w : World) :
  mtx_dtor_count (exit_step a st w) =
  (if bool_decide (a = Dtor_mtx) then 1 else 0) + mtx_dtor_count w.
Proof.
  destruct a as [k0|]; [|done]. rewrite exit_step_Destroy.
  unfold mtx_dtor_count. simpl.
  destruct (decide (ptr_ w k0 = nullptr)); [|destruct (decide (ptr_ w k0 ∈ live w))];
    done.
Qed.

Lemma exit_loop_dtor (n : nat) (w : World) :
  length (exit_stack w) ≤ n →
  mtx_dtor_count (exit_loop n w) = dtor_registered w + mtx_dtor_count w.
Proof.
  revert w. induction n as [|n IH]; intros w Hn; unfold dtor_registered; simpl.
  - destruct (exit_stack w); [done|simpl in Hn; lia].
  - destruct (exit_stack w) as [|a st] eqn:Hst; [done|].
    rewrite IH by (rewrite exit_step_stack; simpl in Hn; lia).
    unfold dtor_registered. rewrite exit_step_stack, exit_step_dtor. simpl. lia.
Qed.

(** C6, as the claim states it, fails: two different MultiThreaded
    instantiations are handed the same mutex, and after both were used one
    mutex has been constructed, not one for each. *)
Lemma C6_counterexample :
  ¬ (∀ (k1 k2 : Slot) (w : World),
       slot_TM k1 = MultiThreaded → slot_TM k2 = MultiThreaded → k1 ≠ k2 →
       (Singleton.GetMutexIfAny k1 w).1 ≠ (Singleton.GetMutexIfAny k2 w).1)
  ∧ mtx_init_count
      (run_calls [(logger_mt, NewOk); (config_mt, NewOk)] initial_world) = 1.
Proof.
  split; [|by vm_compute].
  intros H. apply (H logger_mt config_mt initial_world); done.
Qed.

(** C6, amended. [mtx] is one function-local static of
    [MultiThreaded::GetMutex]: every MultiThreaded instantiation is handed
    that same mutex.  It is not constructed at process start, it is
    constructed once, by the first [Instance()] call of any MultiThreaded
    instantiation, it is not destructed before exit, and exit destructs it
    once if it was constructed. *)
Theorem C6_shared_mutex (cs : list Call) (T : string) (cp : CreationPolicy) :
  let w := run_calls cs initial_world in
  mtx_state initial_world = NotConstructed
  ∧ mtx_init_count w = (if uses_mutex cs then 1 else 0)
  ∧ mtx_state w = (if uses_mutex cs then Unlocked else NotConstructed)
  ∧ (Singleton.GetMutexIfAny (MkSlot T cp MultiThreaded) w).1 = Returned mtx
  ∧ mtx_dtor_count w = 0
  ∧ mtx_dtor_count (exit w) = mtx_init_count w.
Proof.
  intros w. destruct (wf_reachable cs) as [_ Hm]. fold w in Hm.
  assert (mtx_state w = if uses_mutex cs then Unlocked else NotConstructed) as Hst.
  { subst w. by rewrite run_calls_mtx_state by apply wf_initial. }
  split; [done|]. split.
  { rewrite (mo_init w Hm), Hst. by destruct (uses_mutex cs). }
  split; [done|]. split.
  { unfold_all. simpl. by destruct (mtx_state w). }
  split; [apply (mo_dtor w Hm)|].
  unfold exit. rewrite exit_loop_dtor by done.
  rewrite (mo_dtor_registered w Hm), (mo_dtor w Hm). lia.
Qed.

(** ** The guard of SingleThreaded, and teardown of an empty slot *)

Lemma critical_UB_count (k : Slot) (o : NewOutcome) (w : World) :
  count_if is_UB (trace (critical k o w).2) = count_if is_UB (trace w).
Proof.
  unfold critical, logged, log.
  destruct (decide (ptr_ w k = nullptr)); [destruct o|]; done.
Qed.

(** C8. The guard of SingleThreaded does nothing and ignores its argument,
    and [Instance()] leaves the mutex alone, but the argument of the guard
    is produced by dereferencing a null pointer: every [Instance()] call of
    a SingleThreaded instantiation does it once, where a call of a
    MultiThreaded one (the program's own [main]) does not. *)
Theorem C8_SingleThreaded_null_deref
    (T : string) (cp : CreationPolicy) (o : NewOutcome) (m : MutexRef) (w : World) :
  let k := MkSlot T cp SingleThreaded in
  SingleThreaded.Lock m w = (Returned (), w)
  ∧ SingleThreaded.Lock_dtor m w = (Returned (), w)
  ∧ mtx_state (Singleton.Instance k o w).2 = mtx_state w
  ∧ Singleton.GetMutexIfAny k w = (Returned null_ref, logged (EvUB NullDeref) w)
  ∧ count_if is_UB (trace (Singleton.Instance k o w).2) = S (count_if is_UB (trace w))
  ∧ count_if is_UB (trace (Singleton.Instance logger_mt o initial_world).2) = 0.
Proof.
  intros k. split; [done|]. split; [done|].
  rewrite Instance_exec, enter_ST by done. cbv beta iota.
  change (leave k ?x) with x. cbn [snd].
  destruct (critical_mutex_frame k o (logged (EvUB NullDeref) w)) as (Hs & _).
  split; [by rewrite Hs|]. split; [done|].
  split; [by rewrite critical_UB_count|by destruct o].
Qed.

(** C10. [Singleton::Destroy] on an empty slot returns normally, releases
    nothing and leaves every slot as it was: [DefaultCreation::Destroy]
    receives the null pointer, and [delete] of it does nothing. *)
Theorem C10_Destroy_empty_slot (k : Slot) (w : World) :
  ptr_ w k = nullptr →
  let r := Singleton.Destroy k w in
  r.1 = Returned ()
  ∧ (∀ k', ptr_ r.2 k' = ptr_ w k')
  ∧ live r.2 = live w
  ∧ mtx_state r.2 = mtx_state w
  ∧ exit_stack r.2 = exit_stack w
  ∧ trace r.2 = EvDestroy k nullptr :: trace w
  ∧ DefaultCreation.Destroy k nullptr w = (Returned (), logged (EvDestroy k nullptr) w).
Proof.
  intros Hp r. subst r. rewrite Destroy_exec. simpl.
  rewrite !decide_True by done. rewrite Hp.
  repeat split.
  intros k'. destruct (decide (k' = k)) as [->|Hk].
  - by rewrite fn_lookup_insert.
  - by rewrite fn_lookup_insert_ne.
Qed.

Lemma C10_Destroy_empty_slot_witness :
  ptr_ initial_world logger_mt = nullptr ∧
  (Singleton.Destroy logger_mt initial_world).1 = Returned () ∧
  live (Singleton.Destroy logger_mt initial_world).2 = live initial_world.
Proof.
  destruct (C10_Destroy_empty_slot logger_mt initial_world eq_refl)
    as (H1 & _ & H2 & _).
  split; [reflexivity|]. split; [exact H1|exact H2].
Defined.

(** * More on the runtime and on whole runs *)

Example main_runs :
  main NewOk NewThrows {| world := initial_world; cout := EmptyString |} =
  (Returned 0%Z,
   {| world := run_calls [(LoggerSingleton, NewOk); (LoggerSingleton, NewThrows)]
                 initial_world;
      cout := "[LOG] Hello, Singleton!" +:+ newline
              +:+ "[LOG] Another message" +:+ newline |}).
Proof. reflexivity. Qed.

(** ** The creation policy on its own *)

Lemma heap_add_remove (p : addr) (h : gset addr) :
  p ∉ h → ({[p]} ∪ h) ∖ {[p]} = h.
Proof.
  intros Hp. apply set_eq. intros x.
  rewrite elem_of_difference, elem_of_union, !elem_of_singleton. split.
  - by intros [[->|Hx] Hne].
  - intros Hx. split; [by right|]. by intros ->.
Qed.

(** X9. [DefaultCreation::Create()] returns a non-null address that was
    not live and is live afterwards; [DefaultCreation::Destroy] of that
    address gives the heap back as it was, with no undefined behaviour.
    When [new] throws, [Create()] throws and the heap is unchanged. *)
Theorem Create_Destroy_roundtrip (k : Slot) (w : World) :
  ∃ p : addr,
    (DefaultCreation.Create k NewOk w).1 = Returned p
    ∧ p ≠ nullptr ∧ (p ∉ live w)
    ∧ live (DefaultCreation.Create k NewOk w).2 = {[p]} ∪ live w
    ∧ live (DefaultCreation.Destroy k p (DefaultCreation.Create k NewOk w).2).2
      = live w
    ∧ ub_count (DefaultCreation.Destroy k p (DefaultCreation.Create k NewOk w).2).2
      = ub_count w
    ∧ (DefaultCreation.Create k NewThrows w).1 = Threw
    ∧ live (DefaultCreation.Create k NewThrows w).2 = live w.
Proof.
  exists (fresh_addr (live w)).
  pose proof (fresh_addr_nonnull (live w)) as Hn.
  pose proof (fresh_addr_not_live (live w)) as Hf.
  unfold ub_count. unfold_all. simpl.
  rewrite decide_False by done. simpl.
  rewrite decide_True by (apply elem_of_union_l; by apply elem_of_singleton). simpl.
  repeat split; try done. by apply heap_add_remove.
Qed.

(** X8. Running [Singleton::Destroy] a second time frees nothing and is
    no undefined behaviour, in any world: the first run leaves [ptr_] null,
    so the second deletes the null pointer. *)
Theorem Destroy_twice (k : Slot) (w : World) :
  let w1 := (Singleton.Destroy k w).2 in
  let w2 := (Singleton.Destroy k w1).2 in
  ptr_ w1 k = nullptr
  ∧ (∀ k', ptr_ w2 k' = ptr_ w1 k')
  ∧ live w2 = live w1
  ∧ trace w2 = EvDestroy k nullptr :: trace w1
  ∧ ub_count w2 = ub_count w1.
Proof.
  intros w1 w2. subst w2.
  assert (ptr_ w1 k = nullptr) as Hp.
  { subst w1. rewrite Destroy_exec. simpl. by rewrite fn_lookup_insert. }
  rewrite (Destroy_exec k w1). unfold ub_count. simpl.
  rewrite !decide_True by done. rewrite Hp.
  repeat split; try done.
  intros k'. destruct (decide (k' = k)) as [->|Hk].
  - by rewrite fn_lookup_insert.
  - by rewrite fn_lookup_insert_ne.
Qed.

(** ** The guard *)

(** X6. While the mutex is held, an [Instance()] call of a MultiThreaded
    instantiation never returns and changes nothing; a call of a
    SingleThreaded instantiation is not held back and leaves the mutex
    held. *)
Theorem Instance_while_locked (k : Slot) (o : NewOutcome) (w : World) :
  mtx_state w = Locked →
  match slot_TM k with
  | MultiThreaded => Singleton.Instance k o w = (Blocked, w)
  | SingleThreaded =>
      (Singleton.Instance k o w).1 ≠ Blocked
      ∧ mtx_state (Singleton.Instance k o w).2 = Locked
      ∧ lock_count (Singleton.Instance k o w).2 = lock_count w
  end.
Proof.
  intros Hm. rewrite Instance_exec. unfold enter, leave.
  destruct (slot_TM k) eqn:Htm; [|by rewrite Hm].
  destruct (critical_mutex_frame k o (logged (EvUB NullDeref) w)) as (Hs & _).
  cbv beta iota. cbn [fst snd]. rewrite Hs. split; [|split; [done|]].
  - unfold critical. destruct (decide _); [destruct o|]; done.
  - unfold lock_count, critical, logged, log.
    destruct (decide _); [destruct o|]; done.
Qed.

Lemma Instance_while_locked_witness :
  let w := (set_mtx Locked initial_world).2 in
  mtx_state w = Locked
  ∧ Singleton.Instance logger_mt NewOk w = (Blocked, w)
  ∧ (Singleton.Instance logger_st NewOk w).1 ≠ Blocked.
Proof.
  pose proof (Instance_while_locked logger_mt NewOk
                (set_mtx Locked initial_world).2 eq_refl) as H1.
  pose proof (Instance_while_locked logger_st NewOk
                (set_mtx Locked initial_world).2 eq_refl) as (H2 & _).
  split; [reflexivity|]. split; [exact H1|exact H2].
Defined.

(** ** The heap over a whole run *)

Lemma enter_frame_logs (k : Slot) (w w0 : World) :
  enter k w = Some w0 →
  created_log (trace w0) = created_log (trace w)
  ∧ destroy_log (trace w0) = destroy_log (trace w)
  ∧ teardowns (exit_stack w0) = teardowns (exit_stack w).
Proof.
  unfold enter, logged, log.
  destruct (slot_TM k); [|destruct (mtx_state w)]; intros [= <-]; done.
Qed.

Lemma leave_frame_logs (k : Slot) (w : World) :
  created_log (trace (leave k w)) = created_log (trace w)
  ∧ destroy_log (trace (leave k w)) = destroy_log (trace w)
  ∧ teardowns (exit_stack (leave k w)) = teardowns (exit_stack w).
Proof.
  unfold leave, logged, log.
  destruct (slot_TM k); [|destruct (mtx_state w)]; done.
Qed.

Lemma critical_heap_ok (k : Slot) (o : NewOutcome) (w : World) :
  heap_ok w → heap_ok (critical k o w).2.
Proof.
  intros [Hn Ho]. unfold critical, logged, log.
  destruct (decide (ptr_ w k = nullptr)) as [He|He]; [destruct o|]; simpl;
    [|by split|by split].
  pose proof (fresh_addr_nonnull (live w)) as Hf.
  split; simpl.
  - rewrite elem_of_union, elem_of_singleton. intros [E|E]; [by apply Hf|done].
  - intros x. rewrite elem_of_union, elem_of_singleton. intros [->|Hx].
    + exists k. by rewrite fn_lookup_insert.
    + destruct (Ho x Hx) as [k' Hk']. exists k'.
      rewrite fn_lookup_insert_ne; [done|]. intros <-. apply Hn. congruence.
Qed.

Lemma same_slots_heap_ok (w w' : World) : same_slots w w' → heap_ok w → heap_ok w'.
Proof. intros [Hp Hl _ _ _ _] [? ?]. split; rewrite ?Hp, Hl; done. Qed.

Lemma heap_ok_Instance (k : Slot) (o : NewOutcome) (w : World) :
  heap_ok w → heap_ok (Singleton.Instance k o w).2.
Proof.
  intros Hw. rewrite Instance_exec.
  destruct (enter k w) as [w0|] eqn:He; simpl; [|done].
  eapply same_slots_heap_ok; [apply leave_same_slots|].
  apply critical_heap_ok.
  eapply same_slots_heap_ok; [eapply enter_same_slots|]; done.
Qed.

Lemma heap_ok_reachable (cs : list Call) : heap_ok (run_calls cs initial_world).
Proof.
  assert (∀ w, heap_ok w → heap_ok (run_calls cs w)) as H.
  { induction cs as [|c cs IH]; intros w Hw; simpl; [done|].
    apply IH. by apply heap_ok_Instance. }
  apply H. split; simpl; [apply not_elem_of_empty|].
  intros p Hp. by apply not_elem_of_empty in Hp.
Qed.

Lemma exit_step_heap_ok (a : ExitAction) (st : list ExitAction) (w : World) :
  heap_ok w → heap_ok (exit_step a st w).
Proof.
  intros [Hn Ho]. destruct a as [k0|]; [|by split].
  rewrite exit_step_Destroy.
  assert (∀ x, x ∈ live w → x ≠ ptr_ w k0 →
               ∃ k, <[k0 := nullptr]> (ptr_ w) k = x) as Hkeep.
  { intros x Hx Hne. destruct (Ho x Hx) as [k Hk]. exists k.
    rewrite fn_lookup_insert_ne; [done|]. intros <-. by apply Hne. }
  destruct (decide (ptr_ w k0 = nullptr)) as [E|E];
    [|destruct (decide (ptr_ w k0 ∈ live w)) as [Hin|Hin]]; split; simpl; try done.
  - intros x Hx. apply Hkeep; [done|]. intros ->. apply Hn. by rewrite <- E.
  - intros Hx. apply elem_of_difference in Hx as [Hx _]. by apply Hn.
  - intros x Hx. apply elem_of_difference in Hx as [Hx Hne].
    apply Hkeep; [done|]. intros ->. apply Hne. by apply elem_of_singleton.
  - intros x Hx. apply Hkeep; [done|]. by intros ->.
Qed.

Lemma exit_loop_heap_ok (n : nat) (w : World) : heap_ok w → heap_ok (exit_loop n w).
Proof.
  revert w. induction n as [|n IH]; intros w Hw; simpl; [done|].
  destruct (exit_stack w) as [|a st]; [done|]. by apply IH, exit_step_heap_ok.
Qed.

(** X2. After any calls and normal exit nothing is leaked: the heap is
    empty, every slot is empty and no exit action is left. *)
Theorem exit_leaves_nothing (cs : list Call) :
  let w := exit (run_calls cs initial_world) in
  live w = ∅ ∧ (∀ k, ptr_ w k = nullptr) ∧ exit_stack w = [].
Proof.
  intros w.
  assert (∀ k, ptr_ w k = nullptr) as Hp.
  { intros k. subst w. unfold exit.
    apply exit_loop_slot; [|done].
    apply slots_ok_exit_ok. by destruct (wf_reachable cs). }
  split; [|split; [done|apply exit_drains]].
  destruct (exit_loop_heap_ok (length (exit_stack (run_calls cs initial_world)))
              _ (heap_ok_reachable cs)) as [Hn Ho].
  fold (exit (run_calls cs initial_world)) in Hn, Ho. fold w in Hn, Ho.
  apply set_eq. intros x. split; [|by intros ?%not_elem_of_empty].
  intros Hx. exfalso. destruct (Ho x Hx) as [k Hk]. rewrite Hp in Hk.
  apply Hn. by rewrite Hk.
Qed.

Lemma size_add_fresh (p : addr) (h : gset addr) :
  p ∉ h → size ({[p]} ∪ h) = S (size h).
Proof.
  intros Hp. rewrite size_union, size_singleton; [done|].
  intros x Hx%elem_of_singleton Hx'. by subst.
Qed.

Lemma critical_heap_size (k : Slot) (o : NewOutcome) (w : World) :
  size (live w) = length (created_log (trace w)) →
  size (live (critical k o w).2) = length (created_log (trace (critical k o w).2)).
Proof.
  intros H. unfold critical, logged, log.
  destruct (decide (ptr_ w k = nullptr)); [destruct o|]; simpl; try done.
  rewrite size_add_fresh by apply fresh_addr_not_live. by rewrite H.
Qed.

Lemma heap_size_reachable (cs : list Call) :
  let w := run_calls cs initial_world in
  size (live w) = length (created_log (trace w)).
Proof.
  assert (∀ w, size (live w) = length (created_log (trace w)) →
               size (live (run_calls cs w))
               = length (created_log (trace (run_calls cs w)))) as H.
  { induction cs as [|[k o] cs IH]; intros w Hw; simpl; [done|].
    apply IH. unfold do_call. simpl. rewrite Instance_exec.
    destruct (enter k w) as [w0|] eqn:He; simpl; [|done].
    destruct (leave_frame_logs k (critical k o w0).2) as (-> & _).
    rewrite (ss_live _ _ (leave_same_slots k _)).
    apply critical_heap_size.
    destruct (enter_frame_logs k w w0 He) as (-> & _).
    by rewrite (ss_live _ _ (enter_same_slots k _ _ He)). }
  apply H. change (size (∅ : gset addr) = 0). apply size_empty.
Qed.

(** X3. Between calls the heap holds exactly the occupants of the
    occupied slots, and as many objects as [Create()] has returned. *)
Theorem heap_is_the_occupants (cs : list Call) (p : addr) :
  let w := run_calls cs initial_world in
  (p ∈ live w ↔ p ≠ nullptr ∧ ∃ k, ptr_ w k = p)
  ∧ size (live w) = length (created_log (trace w)).
Proof.
  intros w. split; [|apply heap_size_reachable].
  destruct (heap_ok_reachable cs) as [Hn Ho]. fold w in Hn, Ho.
  destruct (wf_reachable cs) as [Hs _]. fold w in Hs.
  split.
  - intros Hp. split; [by intros ->|by apply Ho].
  - intros (Hne & k & <-). by apply (so_live w Hs).
Qed.

(** ** The order of teardown *)

Lemma registered_teardowns (k : Slot) (w : World) :
  registered k w = 0 → k ∉ teardowns (exit_stack w).
Proof.
  unfold registered. induction (exit_stack w) as [|a st IH]; simpl.
  - intros _. apply not_elem_of_nil.
  - destruct a as [k0|]; simpl.
    + destruct (decide (k0 = k)) as [->|Hk].
      * rewrite bool_decide_eq_true_2 by done. lia.
      * rewrite bool_decide_eq_false_2 by congruence. simpl. intros H.
        apply not_elem_of_cons. split; [congruence|by apply IH].
    + intros H. by apply IH.
Qed.

Lemma fmap_insert_fresh (k : Slot) (p : addr) (f : Slot → addr) (l : list Slot) :
  k ∉ l → (λ k', (k', <[k := p]> f k')) <$> l = (λ k', (k', f k')) <$> l.
Proof.
  induction l as [|x l IH]; [done|]. intros H. apply not_elem_of_cons in H as [Hx Hl].
  rewrite !fmap_cons, IH by done. by rewrite fn_lookup_insert_ne.
Qed.

Lemma critical_order_ok (k : Slot) (o : NewOutcome) (w : World) :
  slots_ok w → order_ok w → order_ok (critical k o w).2.
Proof.
  intros Hs [Hc Hd]. unfold critical, logged, log.
  destruct (decide (ptr_ w k = nullptr)) as [He|He]; [destruct o|]; simpl;
    [|by split|by split].
  split; simpl; [|done].
  rewrite fn_lookup_insert. f_equal. rewrite <- Hc.
  apply fmap_insert_fresh, registered_teardowns.
  rewrite (so_registered w Hs k). by rewrite (proj2 (occupied_false k w) He).
Qed.

Lemma order_ok_Instance (k : Slot) (o : NewOutcome) (w : World) :
  slots_ok w → order_ok w → order_ok (Singleton.Instance k o w).2.
Proof.
  intros Hs Ho. rewrite Instance_exec.
  destruct (enter k w) as [w0|] eqn:He; simpl; [|done].
  destruct (enter_frame_logs k w w0 He) as (E1 & E2 & E3).
  pose proof (enter_same_slots k w w0 He) as Hss.
  assert (order_ok w0) as Ho0.
  { destruct Ho as [Hc Hd]. split; rewrite ?E1, ?E2, ?E3, ?(ss_ptr _ _ Hss); done. }
  pose proof (critical_order_ok k o w0 (same_slots_ok _ _ Hss Hs) Ho0) as [Hc Hd].
  destruct (leave_frame_logs k (critical k o w0).2) as (F1 & F2 & F3).
  split; rewrite ?F1, ?F2, ?F3, ?(ss_ptr _ _ (leave_same_slots k _)); done.
Qed.

Lemma order_ok_reachable (cs : list Call) : order_ok (run_calls cs initial_world).
Proof.
  assert (∀ w, wf w → order_ok w → order_ok (run_calls cs w)) as H.
  { induction cs as [|c cs IH]; intros w Hw Ho; simpl; [done|].
    apply IH; [by apply wf_Instance|]. apply order_ok_Instance; [apply Hw|done]. }
  apply H; [apply wf_initial|by split].
Qed.

Lemma exit_step_destroy_log (a : ExitAction) (st : list ExitAction) (w : World) :
  destroy_log (trace (exit_step a st w)) =
  match a with
  | AtExit_Destroy k => (k, ptr_ w k) :: destroy_log (trace w)
  | Dtor_mtx => destroy_log (trace w)
  end.
Proof.
  destruct a as [k0|]; [|done]. rewrite exit_step_Destroy. simpl.
  destruct (decide (ptr_ w k0 = nullptr)); [|destruct (decide (ptr_ w k0 ∈ live w))];
    done.
Qed.

Lemma exit_loop_destroy_log (n : nat) (w : World) :
  exit_ok w → length (exit_stack w) ≤ n →
  destroy_log (trace (exit_loop n w)) =
  rev ((λ k, (k, ptr_ w k)) <$> teardowns (exit_stack w)) ++ destroy_log (trace w).
Proof.
  revert w. induction n as [|n IH]; intros w Hw Hn; simpl.
  - destruct (exit_stack w); [done|simpl in Hn; lia].
  - destruct (exit_stack w) as [|a st] eqn:Hst; [done|].
    rewrite IH; [|by apply exit_step_ok|rewrite exit_step_stack; simpl in Hn; lia].
    rewrite exit_step_stack, exit_step_destroy_log.
    destruct a as [k0|]; simpl.
    + rewrite exit_step_Destroy. simpl. rewrite <- app_assoc. simpl. f_equal. f_equal.
      apply fmap_insert_fresh.
      pose proof (eo_registered w Hw k0) as Hr.
      assert (registered k0 (exit_step (AtExit_Destroy k0) st w) = 0) as H0.
      { unfold registered in *. rewrite exit_step_stack. rewrite Hst in Hr.
        simpl in Hr. rewrite bool_decide_eq_true_2 in Hr by done.
        destruct (occupied k0 w); lia. }
      apply registered_teardowns in H0. by rewrite exit_step_stack in H0.
    + done.
Qed.

(** X1. At normal exit the objects are destroyed in the reverse order of
    their creation, each [Destroy] receiving the pointer its [Create()]
    returned. *)
Theorem teardown_reverses_creation (cs : list Call) :
  let w := run_calls cs initial_world in
  destroy_log (trace w) = []
  ∧ destroy_log (trace (exit w)) = rev (created_log (trace w)).
Proof.
  intros w. destruct (order_ok_reachable cs) as [Hc Hd]. fold w in Hc, Hd.
  split; [done|]. unfold exit.
  rewrite exit_loop_destroy_log; [|apply slots_ok_exit_ok, wf_reachable|done].
  fold w. by rewrite Hc, Hd, app_nil_r.
Qed.

(** ** Undefined behaviour and the guard over a whole run *)

Lemma Instance_ub_count (k : Slot) (o : NewOutcome) (w : World) :
  mutex_ok w →
  ub_count (Singleton.Instance k o w).2 =
  ub_count w + (if bool_decide (slot_TM k = SingleThreaded) then 1 else 0).
Proof.
  intros [Hm _ _ _ _]. unfold ub_count. rewrite Instance_exec.
  unfold enter, leave, logged, log.
  destruct (slot_TM k) eqn:Htm; simpl; [|destruct Hm as [Hm|Hm]; rewrite Hm; simpl].
  all: match goal with
       | |- context [critical ?k ?o ?w0] =>
           destruct (critical_mutex_frame k o w0) as (Hs & _);
           pose proof (critical_UB_count k o w0) as Hu
       end; simpl in *; rewrite ?Htm, ?Hs; simpl; rewrite ?Hu; simpl; lia.
Qed.

Lemma exit_step_ub_count (a : ExitAction) (st : list ExitAction) (w : World) :
  exit_ok w → exit_stack w = a :: st →
  ub_count (exit_step a st w) = ub_count w.
Proof.
  intros Hw Hst. destruct a as [k0|]; [|done].
  rewrite exit_step_Destroy. unfold ub_count. simpl.
  destruct (decide (ptr_ w k0 = nullptr)) as [E|E]; [done|].
  rewrite decide_True; [done|]. by apply (eo_live w Hw).
Qed.

Lemma exit_loop_ub_count (n : nat) (w : World) :
  exit_ok w → ub_count (exit_loop n w) = ub_count w.
Proof.
  revert w. induction n as [|n IH]; intros w Hw; simpl; [done|].
  destruct (exit_stack w) as [|a st] eqn:Hst; [done|].
  rewrite IH by (by apply exit_step_ok). by apply exit_step_ub_count.
Qed.

(** X4. Over any calls and normal exit, undefined behaviour is reached
    once per [Instance()] call of a SingleThreaded instantiation (the null
    dereference) and nowhere else: no object is deleted twice and the
    mutex is not used after its destructor.  A program that uses only
    MultiThreaded instantiations reaches none. *)
Theorem undefined_behaviour_count (cs : list Call) :
  ub_count (run_calls cs initial_world) = st_calls cs
  ∧ ub_count (exit (run_calls cs initial_world)) = st_calls cs.
Proof.
  assert (∀ w, wf w → ub_count (run_calls cs w) = ub_count w + st_calls cs) as H.
  { induction cs as [|[k o] cs IH]; intros w Hw; simpl.
    - unfold st_calls. simpl. lia.
    - rewrite IH by (by apply wf_Instance). unfold do_call. simpl.
      rewrite Instance_ub_count by apply Hw. unfold st_calls. simpl. lia. }
  assert (ub_count (run_calls cs initial_world) = st_calls cs) as E.
  { by rewrite H by apply wf_initial. }
  split; [done|]. unfold exit.
  rewrite exit_loop_ub_count; [done|]. apply slots_ok_exit_ok, wf_reachable.
Qed.

Lemma Instance_lock_count (k : Slot) (o : NewOutcome) (w : World) :
  mutex_ok w →
  lock_count (Singleton.Instance k o w).2 =
    lock_count w + (if bool_decide (slot_TM k = MultiThreaded) then 1 else 0)
  ∧ unlock_count (Singleton.Instance k o w).2 =
    unlock_count w + (if bool_decide (slot_TM k = MultiThreaded) then 1 else 0).
Proof.
  intros [Hm _ _ _ _]. unfold lock_count, unlock_count. rewrite Instance_exec.
  unfold enter, leave, logged, log.
  destruct (slot_TM k) eqn:Htm; simpl; [|destruct Hm as [Hm|Hm]; rewrite Hm; simpl].
  all: match goal with
       | |- context [critical ?k ?o ?w0] =>
           destruct (critical_mutex_frame k o w0) as (Hs & _);
           assert (count_if (λ e, bool_decide (e = EvLock)) (trace (critical k o w0).2)
                   = count_if (λ e, bool_decide (e = EvLock)) (trace w0)
                   ∧ count_if (λ e, bool_decide (e = EvUnlock)) (trace (critical k o w0).2)
                     = count_if (λ e, bool_decide (e = EvUnlock)) (trace w0))
             as [Hl Hu]
             by (unfold critical, logged, log;
                 destruct (decide _); [destruct o|]; done)
       end; simpl in *; rewrite ?Htm, ?Hs; simpl; rewrite ?Hl, ?Hu; simpl; lia.
Qed.

(** X5. Every [Instance()] call of a MultiThreaded instantiation locks the
    mutex once and unlocks it once, whether it creates, finds the object
    or throws; calls of SingleThreaded instantiations never lock. *)
Theorem guard_is_balanced (cs : list Call) :
  let w := run_calls cs initial_world in
  lock_count w = mt_calls cs ∧ unlock_count w = mt_calls cs
  ∧ mtx_state w ≠ Locked.
Proof.
  assert (∀ w, wf w →
               lock_count (run_calls cs w) = lock_count w + mt_calls cs
               ∧ unlock_count (run_calls cs w) = unlock_count w + mt_calls cs) as H.
  { induction cs as [|[k o] cs IH]; intros w Hw; simpl.
    - unfold mt_calls. simpl. lia.
    - destruct (IH (do_call w (k, o))) as [-> ->]; [by apply wf_Instance|].
      unfold do_call. simpl.
      destruct (Instance_lock_count k o w) as [-> ->]; [apply Hw|].
      unfold mt_calls. simpl. lia. }
  intros w. destruct (H initial_world wf_initial) as [E1 E2]. fold w in E1, E2.
  split; [done|]. split; [done|].
  destruct (wf_reachable cs) as [_ [[Hm|Hm] _ _ _ _]]; fold w in Hm; congruence.
Qed.

(** ** The mutex outlives the objects it guards *)

Lemma registered_in (k : Slot) (w : World) :
  registered k w ≠ 0 → AtExit_Destroy k ∈ exit_stack w.
Proof.
  unfold registered. induction (exit_stack w) as [|a st IH]; simpl; [done|].
  destruct (decide (a = AtExit_Destroy k)) as [->|Ha].
  - intros _. apply list_elem_of_here.
  - rewrite bool_decide_eq_false_2 by done. simpl. intros H.
    apply list_elem_of_further. by apply IH.
Qed.

Lemma registered_not_in (k : Slot) (w : World) :
  registered k w = 0 → AtExit_Destroy k ∉ exit_stack w.
Proof.
  unfold registered. induction (exit_stack w) as [|a st IH]; simpl.
  - intros _. apply not_elem_of_nil.
  - destruct (decide (a = AtExit_Destroy k)) as [->|Ha].
    + rewrite bool_decide_eq_true_2 by done. lia.
    + rewrite bool_decide_eq_false_2 by done. simpl. intros H.
      apply not_elem_of_cons. split; [congruence|by apply IH].
Qed.

Lemma mutex_alive_Instance (k : Slot) (o : NewOutcome) (w : World) :
  wf w → mutex_alive w → mutex_alive (Singleton.Instance k o w).2.
Proof.
  intros Hw Ha k' Htm' Hp'.
  pose proof (wf_Instance k o w Hw) as [_ Hm'].
  split; [by apply (mo_mt _ Hm' k')|].
  revert Hp'. rewrite Instance_exec.
  destruct (enter k w) as [w0|] eqn:He; simpl; [|by apply Ha].
  rewrite (ss_ptr _ _ (leave_same_slots k _)).
  assert (exit_stack (leave k (critical k o w0).2) = exit_stack (critical k o w0).2)
    as -> by (unfold leave, logged, log;
              destruct (slot_TM k); [|destruct (mtx_state _)]; done).
  assert (below_dtor (exit_stack (critical k o w0).2) = below_dtor (exit_stack w0)) as ->.
  { unfold critical, logged, log.
    destruct (decide (ptr_ w0 k = nullptr)); [destruct o|]; done. }
  intros Hp'.
  destruct Hw as [Hs Hm].
  destruct (decide (ptr_ w k' = nullptr)) as [E|E].
  - (* the slot was empty: its teardown is nowhere in the old stack *)
    assert (AtExit_Destroy k' ∉ exit_stack w) as Hout.
    { apply registered_not_in. rewrite (so_registered w Hs k').
      by rewrite (proj2 (occupied_false k' w) E). }
    revert He. unfold enter, logged, log.
    destruct (slot_TM k); [|destruct (mtx_state w)]; intros [= <-]; simpl;
      try done.
    all: intros Hin; apply Hout.
    all: clear -Hin; induction (exit_stack w) as [|a st IH]; simpl in *;
      [by apply elem_of_nil in Hin|];
      destruct a; [apply list_elem_of_further; by apply IH|
                   by apply list_elem_of_further].
  - destruct (Ha k' Htm' E) as [Hu Hb].
    revert He. unfold enter, logged, log.
    destruct (slot_TM k); [|rewrite Hu]; intros [= <-]; done.
Qed.

Lemma mutex_alive_reachable (cs : list Call) : mutex_alive (run_calls cs initial_world).
Proof.
  assert (∀ w, wf w → mutex_alive w → mutex_alive (run_calls cs w)) as H.
  { induction cs as [|c cs IH]; intros w Hw Ha; simpl; [done|].
    apply IH; [by apply wf_Instance|by apply mutex_alive_Instance]. }
  apply H; [apply wf_initial|]. by intros k _ Hp.
Qed.

Lemma exit_step_mtx_state (a : ExitAction) (st : list ExitAction) (w : World) :
  mtx_state (exit_step a st w) =
  if decide (a = Dtor_mtx) then Destructed else mtx_state w.
Proof. destruct a as [k0|]; [|done]. by rewrite exit_step_Destroy. Qed.

Lemma exit_step_alive (a : ExitAction) (st : list ExitAction) (w : World) :
  exit_ok w → mutex_alive w → exit_stack w = a :: st →
  mutex_alive (exit_step a st w).
Proof.
  intros Hw Ha Hst k Htm. rewrite exit_step_ptr, exit_step_mtx_state, exit_step_stack.
  destruct (decide (a = AtExit_Destroy k)) as [->|Hne]; [done|].
  intros Hp. destruct (Ha k Htm Hp) as [Hu Hb]. rewrite Hst in Hb.
  destruct a as [k0|]; simpl in *.
  - done.
  - exfalso. apply Hb.
    assert (AtExit_Destroy k ∈ exit_stack w) as Hin.
    { apply registered_in. rewrite (eo_registered w Hw k).
      by rewrite (proj2 (occupied_true k w) Hp). }
    rewrite Hst in Hin. by apply elem_of_cons in Hin as [?|?].
Qed.

Lemma exit_states_alive (n : nat) (w w' : World) :
  exit_ok w → mutex_alive w → w' ∈ exit_states n w → mutex_alive w'.
Proof.
  revert w. induction n as [|n IH]; intros w Hw Ha Hin; simpl in Hin.
  - by apply elem_of_nil in Hin.
  - destruct (exit_stack w) as [|a st] eqn:Hst; [by apply elem_of_nil in Hin|].
    pose proof (exit_step_ok a st w Hw Hst) as Hw1.
    pose proof (exit_step_alive a st w Hw Ha Hst) as Ha1.
    apply elem_of_cons in Hin as [->|Hin]; [done|]. by apply (IH _ Hw1 Ha1).
Qed.

(** X11. At every point of a process's life, during the calls and during
    exit, a MultiThreaded slot that is occupied has its mutex constructed,
    unlocked and not yet destructed: at exit the destructor of [mtx] runs
    only after the teardown of every MultiThreaded slot. *)
Theorem mutex_outlives_objects (cs : list Call) (k : Slot) (w : World) :
  w ∈ lifetime cs → slot_TM k = MultiThreaded → ptr_ w k ≠ nullptr →
  mtx_state w = Unlocked.
Proof.
  intros Hin Htm Hp. unfold lifetime in Hin.
  apply elem_of_app in Hin as [Hin|Hin].
  - destruct (call_states_ok cs initial_world w wf_initial Hin) as [_ Hm].
    by apply (mo_mt w Hm k).
  - assert (mutex_alive w) as Ha.
    { eapply exit_states_alive; [| |done].
      - apply slots_ok_exit_ok, wf_reachable.
      - apply mutex_alive_reachable. }
    by apply (Ha k).
Qed.

Lemma mutex_outlives_objects_witness :
  let w := do_call initial_world (logger_mt, NewOk) in
  w ∈ lifetime [(logger_mt, NewOk)]
  ∧ ptr_ w logger_mt ≠ nullptr
  ∧ mtx_state w = Unlocked.
Proof.
  assert (do_call initial_world (logger_mt, NewOk) ∈ lifetime [(logger_mt, NewOk)])
    as Hin.
  { unfold lifetime. apply elem_of_app. left. cbn [call_states].
    apply list_elem_of_further, list_elem_of_here. }
  assert (ptr_ (do_call initial_world (logger_mt, NewOk)) logger_mt ≠ nullptr)
    as Hp by (by vm_compute).
  split; [exact Hin|]. split; [exact Hp|].
  exact (mutex_outlives_objects [(logger_mt, NewOk)] logger_mt _ Hin eq_refl Hp).
Defined.
